(** * mes2plus/sync_reimport_sn.py: order-code extraction and serial-number
    reimport between the MES and PLUS databases.

  Definitions:
  - [Re]: the fragment of Python's [re] backtracking matcher that the two
    patterns of [__extract_order_number] use (character classes, literals,
    concatenation, greedy [*] and [+], positive lookahead), [re.search]
    and [group(0)];
  - [Extract]: [__extract_order_number];
  - [Sync]: the tables the script reads and writes, the write transaction,
    the loop body of the [__main__] block and the loop itself, with the
    exceptions the write statements may raise;
  - [Report]: from general/send_daily_report.py, the parts of a company
    shipment report that are captured and merged, and the geometry of
    [__merge_images];
  - [Scenario]: small concrete databases.

  Facts: [ReFacts], [ExtractFacts], [SyncFacts], [ReportFacts],
  [ExtractMore], [SyncMore].

  What is taken from the database server rather than from the script: a
  [WHERE column = %s] selects the rows whose column is exactly the given
  string; a connection opened with [autocommit=False] makes its changes
  visible at [commit] and loses them when it is closed without one.

  Which exceptions are followed: those of the three write statements
  (delete, insert, commit). A run is followed on the inputs where the
  connections open, the read queries return and every recent batch has an
  order string. On the other paths (a connection or a read query fails, or
  the left join gives no order string and [re.search] raises a type error)
  the script stops before the write transaction of that batch exists. *)

From Stdlib Require Import Ascii String NArith ZArith DecimalString Lia.
From stdpp Require Import gmap list strings.

Open Scope list_scope.

(** A Python [str] is a sequence of Unicode code points. *)
Definition char := N.
Definition str := list char.

Definition ch (a : ascii) : char := N_of_ascii a.

(** [py "..."] is the Python literal with the same ASCII text. *)
Definition py (s : string) : str := map ch (list_ascii_of_string s).

Module Re.

(** An item of a bracketed class: a range [lo-hi] or a single character. *)
Inductive citem :=
| Range (lo hi : char)
| Single (c : char).

Inductive regex :=
| Cls (items : list citem)          (* [...]   *)
| Chr (c : char)                    (* literal *)
| Cat (r1 r2 : regex)               (* r1r2    *)
| Star (r : regex)                  (* r*  greedy *)
| Plus (r : regex)                  (* r+  greedy *)
| Ahead (r : regex).                (* (?=r)   *)

Definition in_item (c : char) (i : citem) : bool :=
  match i with
  | Range lo hi => (lo <=? c)%N && (c <=? hi)%N
  | Single x => (c =? x)%N
  end.

Definition in_class (items : list citem) (c : char) : bool :=
  existsb (in_item c) items.

Definition orelse {A} (x y : option A) : option A :=
  match x with Some _ => x | None => y end.

(** The greedy repetition loop: try one more [step] first and only then the
    continuation. An iteration that consumes nothing is abandoned, so
    [fuel = length s] iterations are always enough. *)
Fixpoint star_loop {A} (step : str -> (str -> option A) -> option A)
         (k : str -> option A) (fuel : nat) (s : str) : option A :=
  match fuel with
  | O => k s
  | S fuel' =>
      orelse
        (step s (fun s1 =>
                   if (length s1 <? length s)%nat
                   then star_loop step k fuel' s1 else None))
        (k s)
  end.

(** Backtracking matcher in continuation-passing style: [bt r s k] matches
    [r] at the head of [s] and hands the rest of the input to [k]; when [k]
    fails the matcher backtracks into [r]. The first success is the match
    Python reports. *)
Fixpoint bt (A : Type) (r : regex) (s : str) (k : str -> option A)
         {struct r} : option A :=
  match r with
  | Cls items =>
      match s with
      | c :: s' => if in_class items c then k s' else None
      | [] => None
      end
  | Chr x =>
      match s with
      | c :: s' => if (c =? x)%N then k s' else None
      | [] => None
      end
  | Cat r1 r2 => bt A r1 s (fun s1 => bt A r2 s1 k)
  | Star r1 => star_loop (bt A r1) k (length s) s
  | Plus r1 =>
      bt A r1 s (fun s1 => star_loop (bt A r1) k (length s1) s1)
  | Ahead r1 =>
      match bt unit r1 s (fun _ => Some tt) with
      | Some _ => k s
      | None => None
      end
  end.
Arguments bt {A} r s k.

(** [re.match]-like: length of the match of [r] at the head of [s]. *)
Definition match_here (r : regex) (s : str) : option nat :=
  bt r s (fun rest => Some (length s - length rest)%nat).

(** A match object: the span [(start, end)] in the searched string. *)
Definition span := (nat * nat)%type.

Fixpoint search_from (r : regex) (pos : nat) (s : str) : option span :=
  match match_here r s with
  | Some n => Some (pos, (pos + n)%nat)
  | None =>
      match s with
      | [] => None
      | _ :: s' => search_from r (S pos) s'
      end
  end.

(** [re.search(r, s)]: the first position, from the left, with a match. *)
Definition search (r : regex) (s : str) : option span := search_from r 0 s.

(** [m.group(0)], that is [s[start:end]]. *)
Definition group0 (s : str) (m : span) : str :=
  firstn (snd m - fst m) (skipn (fst m) s).

(** Greedy repetition of one character test, by recursion on the input:
    as many characters as possible first, then one fewer, and so on. *)
Fixpoint greedy {A} (p : char -> bool) (k : str -> option A) (s : str)
  : option A :=
  match s with
  | c :: s' => if p c then orelse (greedy p k s') (k s) else k s
  | [] => k []
  end.

(** Length of the longest prefix of [s] whose characters all pass [p]. *)
Fixpoint run (p : char -> bool) (s : str) : nat :=
  match s with
  | c :: s' => if p c then S (run p s') else O
  | [] => O
  end.

End Re.

Module Extract.
Import Re.

Definition upper : list citem := [Range (ch "A") (ch "Z")].
Definition upper_digit_hyphen : list citem :=
  [Range (ch "A") (ch "Z"); Range (ch "0") (ch "9"); Single (ch "-")].
Definition digit : list citem := [Range (ch "0") (ch "9")].

(** [-[0-9]-[0-9]] *)
Definition suffix : regex :=
  Cat (Chr (ch "-")) (Cat (Cls digit) (Cat (Chr (ch "-")) (Cls digit))).

(** [r"[A-Z]+[A-Z0-9-]*(?=-[0-9]-[0-9])"] *)
Definition pattern_with_suffix : regex :=
  Cat (Plus (Cls upper)) (Cat (Star (Cls upper_digit_hyphen)) (Ahead suffix)).

(** [r"[A-Z]+[A-Z0-9-]*"] *)
Definition pattern_normal : regex :=
  Cat (Plus (Cls upper)) (Star (Cls upper_digit_hyphen)).

Definition extract_order_number (order : str) : str :=
  match search pattern_with_suffix order with
  | Some m => group0 order m
  | None =>
      match search pattern_normal order with
      | Some m => group0 order m
      | None => order
      end
  end.

(** ** Vocabulary for the statements about [extract_order_number] *)

Definition is_upper (c : char) : bool := in_class upper c.
Definition is_order_char (c : char) : bool := in_class upper_digit_hyphen c.
Definition is_digit (c : char) : bool := in_class digit c.

(** The text at the head of [t] reads [-d-d] with two digits [d]. *)
Definition suffix_here (t : str) : bool :=
  match t with
  | h1 :: d1 :: h2 :: d2 :: _ =>
      (h1 =? ch "-")%N && is_digit d1 && (h2 =? ch "-")%N && is_digit d2
  | _ => false
  end.

Definition digit_suffix (t : str) : Prop := suffix_here t = true.

(** [m] is an uppercase letter followed by uppercase letters, digits and
    hyphens: the texts [[A-Z]+[A-Z0-9-]*] matches. *)
Definition order_run (m : str) : Prop :=
  exists c m', m = c :: m' /\ is_upper c = true /\
               Forall (fun x => is_order_char x = true) m'.

(** In [s], after [pre], stands the run [m] and right behind it [-d-d]. *)
Definition suffixed_at (s pre m : str) : Prop :=
  exists t, s = pre ++ m ++ t /\ order_run m /\ digit_suffix t.

(** [s] has [-d-d] somewhere: at its head or further right. *)
Fixpoint has_suffix (s : str) : bool :=
  suffix_here s || match s with [] => false | _ :: s' => has_suffix s' end.

Definition contains_suffix (s : str) : Prop := has_suffix s = true.

End Extract.

Module Sync.
Import Extract.

(** ** Rows *)

(** A row of [query_mes_recently_barcode_creations], with an order string
    (a row whose left join found no production task has none; such rows are
    outside this model). *)
Record barcode_creation := {
  bc_id : Z;
  task_code : str;
  inv_code : str;
  inv_name : str;
  order_code : str
}.

(** A row of the MES table [jgmes_barcode_data]. *)
Record barcode_data := {
  bd_id : Z;
  bd_bc_id : Z;
  bd_code : str;
  delete_flag : Z
}.

(** A row of [query_mes_barcode_creation_barcodes]: [bd_id] and [code]. *)
Record barcode := { id : Z; code : str }.

(** The MES database as this script reads it: the rows the recency query
    selects (the query itself, with its joins and its time window, is
    evaluated by the server) and the barcode table. *)
Record mes_db := {
  recent_barcode_creations : list barcode_creation;
  jgmes_barcode_data : list barcode_data
}.

(** A row of the PLUS serial-number library (the table the script deletes
    from and inserts into): sales order, item code, serial code, import
    source, entered by, entered at. *)
Record sn_row := {
  sales_order : str;
  item_code : str;
  sn_code : str;
  import_source : str;
  entered_by : str;
  entered_at : str
}.

(** A row of the PLUS stock (incoming) or shipment (outgoing) table, with the
    two columns the script reads. *)
Record movement_row := { mv_sales_order : str; mv_sn_code : str }.

Record plus_db := {
  sn_library : list sn_row;
  stock : list movement_row;
  shipped : list movement_row
}.

(** ** Events and exceptions *)

Inductive statement := DELETE | INSERT | COMMIT.

(** The exception a write statement raises. *)
Inductive exn := DatabaseError (at_ : statement).

(** What the server does to one write transaction: nothing, or an error at
    the delete, at the insert after [done] rows went in, or at the commit. *)
Inductive fault :=
| NoFault
| FailDelete
| FailInsert (done : nat)
| FailCommit.

(** The surroundings of one loop iteration: the wall clock read by
    [insert_plus_barcodes] and the fault of its write transaction. *)
Record env := { clock : str; fault_of : fault }.

Inductive level := INFO | WARNING | ERROR.

Inductive message :=
| Processing (task order : str)
| Mes_count (n : nat)
| Plus_count (n : nat)
| Count_differs_skip
| Content_same_skip
| Moved_skip
| Deleted (n : nat)
| Inserted (n : nat)
| Reimport_ok
| Reimport_failed (e : exn)
| Run_started
| Mes_connected
| Plus_connected
| Recent_count (n : nat)
| Run_failed (e : exn).

Inductive event :=
| Log (lv : level) (m : message)
| Sql_delete (order : str)              (* DELETE ... WHERE sales order = order *)
| Sql_insert (rows : list sn_row)       (* INSERT ... VALUES rows *)
| Sql_commit.

(** The state a run works on: the committed PLUS database, the working copy
    of the serial-number library inside the open write transaction (if one
    is open), and the journal of log lines and write statements. A
    transaction started with [autocommit=False] publishes its working copy
    at [commit]; closing the connection without a commit drops it. *)
Record world := {
  plus : plus_db;
  txn : option (list sn_row);
  journal : list event
}.

(** ** A state and exception monad *)

Inductive result (A : Type) :=
| Ok (a : A)
| Raise (e : exn).
Arguments Ok {A} a.
Arguments Raise {A} e.

Definition M (A : Type) := world -> result A * world.

Definition ret {A} (a : A) : M A := fun w => (Ok a, w).

Definition bind {A B} (m : M A) (f : A -> M B) : M B :=
  fun w =>
    match m w with
    | (Ok a, w1) => f a w1
    | (Raise e, w1) => (Raise e, w1)
    end.

Definition raise {A} (e : exn) : M A := fun w => (Raise e, w).

(** [try: m except Exception as e: h e] *)
Definition try_except {A} (m : M A) (h : exn -> M A) : M A :=
  fun w =>
    match m w with
    | (Ok a, w1) => (Ok a, w1)
    | (Raise e, w1) => h e w1
    end.

(** [try: m finally: f] *)
Definition try_finally {A} (m : M A) (f : M unit) : M A :=
  fun w =>
    match m w with
    | (r, w1) =>
        match f w1 with
        | (Ok _, w2) => (r, w2)
        | (Raise e, w2) => (Raise e, w2)
        end
    end.

Notation "x <- m ;; f" := (bind m (fun x => f))
  (at level 100, m at next level, right associativity).
Notation "m ;;; f" := (bind m (fun _ => f))
  (at level 100, right associativity).

Definition emit (ev : event) : M unit :=
  fun w => (Ok tt, {| plus := plus w; txn := txn w;
                      journal := journal w ++ [ev] |}).

Definition log (lv : level) (m : message) : M unit := emit (Log lv m).

(** ** Queries *)

Definition query_mes_recently_barcode_creations (conn : mes_db)
  : list barcode_creation := recent_barcode_creations conn.

Definition query_mes_barcode_creation_barcodes (conn : mes_db) (bc : Z)
  : list barcode :=
  map (fun r => {| id := bd_id r; code := bd_code r |})
      (filter (fun r => bd_bc_id r = bc /\ delete_flag r = 0%Z)
              (jgmes_barcode_data conn)).

Definition query_plus_imported_barcodes (conn : plus_db) (order : str)
  : list str :=
  map sn_code (filter (fun r => sales_order r = order) (sn_library conn)).

Definition query_plus_incoming_barcodes (conn : plus_db) (order : str)
  : list str :=
  map mv_sn_code (filter (fun r => mv_sales_order r = order) (stock conn)).

Definition query_plus_outgoing_barcodes (conn : plus_db) (order : str)
  : list str :=
  map mv_sn_code (filter (fun r => mv_sales_order r = order) (shipped conn)).

(** The read connection is in autocommit mode: it sees the committed state.
    The query is taken to return. *)
Definition read {A} (q : plus_db -> A) : M A := fun w => (Ok (q (plus w)), w).

(** ** The write transaction *)

(** [get_plus_conn(autocommit=False)], taken to succeed. *)
Definition get_plus_txn_conn : M unit :=
  fun w => (Ok tt, {| plus := plus w; txn := Some (sn_library (plus w));
                      journal := journal w |}).

(** The working copy of the open transaction (empty when none is open,
    which the loop body never runs into: it opens one first). *)
Definition working (w : world) : list sn_row :=
  match txn w with Some rows => rows | None => [] end.

Definition set_working (rows : list sn_row) : M unit :=
  fun w => (Ok tt, {| plus := plus w; txn := Some rows;
                      journal := journal w |}).

Definition delete_plus_imported_barcodes (e : env) (order : str) : M nat :=
  fun w =>
    match fault_of e with
    | FailDelete => (Raise (DatabaseError DELETE), w)
    | _ =>
        let kept := filter (fun r => sales_order r <> order) (working w) in
        (emit (Sql_delete order) ;;;
         set_working kept ;;;
         ret (length (working w) - length kept)%nat) w
    end.

(** The two constant columns hold the three code points U+673A U+5668
    U+4EBA (the word for robot). *)
Definition robot : str := [26426; 22120; 20154]%N.

(** The count returned is the one of a list that is not empty, the only kind
    the loop passes (on an empty list [executemany] runs nothing and leaves
    the cursor's count at its initial value). *)
Definition insert_plus_barcodes (e : env) (order item : str)
           (barcodes : list barcode) : M nat :=
  fun w =>
    let now := clock e in
    let params :=
      map (fun b => {| sales_order := order; item_code := item;
                       sn_code := code b; import_source := robot;
                       entered_by := robot; entered_at := now |})
          barcodes in
    match fault_of e with
    | FailInsert done =>
        (emit (Sql_insert params) ;;;
         set_working (working w ++ firstn done params) ;;;
         raise (DatabaseError INSERT)) w
    | _ =>
        (emit (Sql_insert params) ;;;
         set_working (working w ++ params) ;;;
         ret (length params)) w
    end.

(** [plus_txn_conn.commit()] *)
Definition commit (e : env) : M unit :=
  fun w =>
    match fault_of e with
    | FailCommit => (Raise (DatabaseError COMMIT), w)
    | _ =>
        (Ok tt, {| plus := {| sn_library := working w;
                              stock := stock (plus w);
                              shipped := shipped (plus w) |};
                   txn := txn w;
                   journal := journal w ++ [Sql_commit] |})
    end.

(** [plus_txn_conn.close()] *)
Definition close_txn : M unit :=
  fun w => (Ok tt, {| plus := plus w; txn := None; journal := journal w |}).

(** ** The loop body *)

(** How one iteration ends: at one of the three [continue] statements or
    after the commit. *)
Inductive verdict :=
| Skipped_count
| Skipped_same
| Skipped_moved
| Reimported.

(** Python truth value of a list. *)
Definition truthy {A} (l : list A) : bool :=
  match l with [] => false | _ :: _ => true end.

Definition process (e : env) (mes_conn : mes_db) (barcode_creation : barcode_creation)
  : M verdict :=
  let order_code := extract_order_number (order_code barcode_creation) in
  log INFO (Processing (task_code barcode_creation) order_code) ;;;
  let mes_barcodes :=
    query_mes_barcode_creation_barcodes mes_conn (bc_id barcode_creation) in
  let mes_codes := map code mes_barcodes in
  log INFO (Mes_count (length mes_codes)) ;;;
  plus_codes <- read (fun conn => query_plus_imported_barcodes conn order_code) ;;
  log INFO (Plus_count (length plus_codes)) ;;;
  if negb (length mes_codes =? length plus_codes)%nat then
    log WARNING Count_differs_skip ;;; ret Skipped_count
  else if bool_decide (list_to_set mes_codes =@{gset str} list_to_set plus_codes) then
    log WARNING Content_same_skip ;;; ret Skipped_same
  else
    plus_incoming_barcodes <-
      read (fun conn => query_plus_incoming_barcodes conn order_code) ;;
    plus_outgoing_barcodes <-
      read (fun conn => query_plus_outgoing_barcodes conn order_code) ;;
    if truthy plus_incoming_barcodes || truthy plus_outgoing_barcodes then
      log WARNING Moved_skip ;;; ret Skipped_moved
    else
      get_plus_txn_conn ;;;
      try_finally
        (try_except
           (delete_count <- delete_plus_imported_barcodes e order_code ;;
            log INFO (Deleted delete_count) ;;;
            insert_count <-
              insert_plus_barcodes e order_code (inv_code barcode_creation)
                                   mes_barcodes ;;
            log INFO (Inserted insert_count) ;;;
            commit e ;;;
            log INFO Reimport_ok)
           (fun ex => log ERROR (Reimport_failed ex) ;;; raise ex))
        close_txn ;;;
      ret Reimported.

(** [for barcode_creation in barcode_creations: ...]; iteration [i] runs in
    the surroundings [envs i]. *)
Fixpoint for_each (envs : nat -> env) (mes_conn : mes_db)
         (barcode_creations : list barcode_creation) : M unit :=
  match barcode_creations with
  | [] => ret tt
  | barcode_creation :: rest =>
      process (envs O) mes_conn barcode_creation ;;;
      for_each (fun i => envs (S i)) mes_conn rest
  end.

(** The [__main__] block. Opening the two read connections is taken to
    succeed; closing them in the outer [finally] changes nothing here. *)
Definition main (envs : nat -> env) (mes_conn : mes_db) : M unit :=
  log INFO Run_started ;;;
  try_except
    (log INFO Mes_connected ;;;
     log INFO Plus_connected ;;;
     let barcode_creations :=
       query_mes_recently_barcode_creations mes_conn in
     log INFO (Recent_count (length barcode_creations)) ;;;
     for_each envs mes_conn barcode_creations)
    (fun ex => log ERROR (Run_failed ex) ;;; raise ex).

(** ** Observations on a journal *)

Definition is_write (ev : event) : bool :=
  match ev with
  | Sql_delete _ | Sql_insert _ => true
  | _ => false
  end.

(** The write statements of a journal. *)
Definition writes (j : list event) : list event := List.filter is_write j.

(** Whether a write statement touches rows of the sales order [order]. *)
Definition touches (order : str) (ev : event) : bool :=
  match ev with
  | Sql_delete o => bool_decide (o = order)
  | Sql_insert rows => existsb (fun r => bool_decide (sales_order r = order)) rows
  | _ => false
  end.

(** ** Vocabulary for the statements about the loop *)

(** The order code an iteration works on. *)
Definition order_of (bc : barcode_creation) : str :=
  extract_order_number (order_code bc).

(** [mes_codes] and [plus_codes] of an iteration. *)
Definition mes_codes (mes_conn : mes_db) (bc : barcode_creation) : list str :=
  map code (query_mes_barcode_creation_barcodes mes_conn (bc_id bc)).

Definition plus_codes (conn : plus_db) (bc : barcode_creation) : list str :=
  query_plus_imported_barcodes conn (order_of bc).

(** [set(a) == set(b)] *)
Definition same_set (a b : list str) : bool :=
  bool_decide (list_to_set a =@{gset str} list_to_set b).

(** Some incoming or outgoing row exists for the order code. *)
Definition moved (conn : plus_db) (order : str) : bool :=
  truthy (query_plus_incoming_barcodes conn order)
  || truthy (query_plus_outgoing_barcodes conn order).

(** The rows [insert_plus_barcodes] builds for an iteration. *)
Definition fresh_rows (e : env) (mes_conn : mes_db) (bc : barcode_creation)
  : list sn_row :=
  map (fun b => {| sales_order := order_of bc; item_code := inv_code bc;
                   sn_code := code b; import_source := robot;
                   entered_by := robot; entered_at := clock e |})
      (query_mes_barcode_creation_barcodes mes_conn (bc_id bc)).

(** The rows of the library that belong to other order codes. *)
Definition other_rows (conn : plus_db) (bc : barcode_creation) : list sn_row :=
  filter (fun r => sales_order r <> order_of bc) (sn_library conn).

(** The three log lines every iteration starts with. *)
Definition preamble (mes_conn : mes_db) (bc : barcode_creation) (w : world)
  : list event :=
  [Log INFO (Processing (task_code bc) (order_of bc));
   Log INFO (Mes_count (length (mes_codes mes_conn bc)));
   Log INFO (Plus_count (length (plus_codes (plus w) bc)))].

(** An iteration on this state stops at one of its three guards. *)
Definition settled (mes_conn : mes_db) (conn : plus_db) (bc : barcode_creation)
  : bool :=
  negb (length (mes_codes mes_conn bc) =? length (plus_codes conn bc))%nat
  || same_set (mes_codes mes_conn bc) (plus_codes conn bc)
  || moved conn (order_of bc).

Definition is_processing (ev : event) : bool :=
  match ev with
  | Log INFO (Processing _ _) => true
  | _ => false
  end.

End Sync.

(** * general/send_daily_report.py: which report parts are captured and
    merged, and where [__merge_images] pastes them *)

Module Report.
Local Open Scope Z_scope.

(** [range(start, stop, step)] for a step other than zero. *)
Definition py_range (start stop step : Z) : list Z :=
  let n := if 0 <? step
           then (stop - start + step - 1) / step
           else (start - stop - step - 1) / (- step) in
  map (fun i => start + Z.of_nat i * step) (seq 0 (Z.to_nat n)).

(** [str(i)] *)
Definition str_of_int (i : Z) : str := py (NilZero.string_of_int (Z.to_int i)).

(** [os.path.join(a, b)] with [/] as the separator. *)
Definition path_join (a b : str) : str :=
  match b with
  | c :: _ =>
      if (c =? ch "/")%N then b
      else match last a with
           | None => b
           | Some z => if (z =? ch "/")%N then a ++ b else a ++ ch "/" :: b
           end
  | [] =>
      match last a with
      | None => []
      | Some z => if (z =? ch "/")%N then a else a ++ [ch "/"]
      end
  end.

(** The name of one partial capture: the report name, an underscore, the
    four code points U+5C40 U+90E8 U+622A U+56FE, a hyphen, the label of the
    part and [.png]. *)
Definition part_png (report label : str) : str :=
  report ++ [95; 23616; 37096; 25130; 22270; 45]%N ++ label ++ py ".png".

(** The labels of the table head, of the delayed shipments and of the tail
    goods, and the label of a month: its number, a blank and U+6708. *)
Definition label_head : str := [34920; 22836]%N.
Definition label_delayed : str := [24310; 26399; 20986; 36135]%N.
Definition label_tail : str := [36135; 23614]%N.
Definition label_month (i : Z) : str := str_of_int i ++ [32; 26376]%N.

(** The months captured when [now.month = month]: the loop over
    [range(now.month, min(now.month + 3, 13))], then, past October, the loop
    over [range(1, 3)] on the page of the next year. *)
Definition shot_months (month : Z) : list Z :=
  py_range month (Z.min (month + 3) 13) 1
  ++ (if 10 <? month then py_range 1 3 1 else []).

(** [months], the order in which the month parts are merged. *)
Definition merge_months (month : Z) : list Z :=
  if month <? 11 then py_range (month + 2) (month - 1) (-1)
  else if month =? 11 then [1; 12; 11]
  else [2; 1; 12].

(** [__screenshot_company_shipment_report], on the path where every browser
    call returns: the files it captures, in order ([img_paths]), and the
    files it hands to [__merge_images] ([merge_order]). *)
Definition company_shipment_paths (temp_dir report : str) (has_tail : bool)
           (month : Z) : list str * list str :=
  let file label := path_join temp_dir (part_png report label) in
  let img_paths :=
    [file label_head; file label_delayed]
    ++ (if has_tail then [file label_tail] else [])
    ++ map (fun i => file (label_month i)) (shot_months month) in
  let merge_order :=
    [file label_head; file label_delayed]
    ++ (if has_tail then [file label_tail] else [])
    ++ map (fun m => file (label_month m)) (merge_months month) in
  (img_paths, merge_order).

(** [img.size]: width and height. *)
Definition size := (Z * Z)%type.

(** One [new_img.paste(img, (x_offset, y_offset))]. *)
Record paste := { at_x : Z; at_y : Z; pasted : size }.

(** [max(widths)]: no value for an empty list, where Python raises
    [ValueError]. *)
Definition py_max (l : list Z) : option Z :=
  match l with
  | [] => None
  | x :: l' => Some (fold_left Z.max l' x)
  end.

(** [sum(heights)] *)
Definition py_sum (l : list Z) : Z := fold_left Z.add l 0.

(** The paste loop of [__merge_images]. *)
Fixpoint paste_loop (max_width y_offset : Z) (images : list size) : list paste :=
  match images with
  | [] => []
  | img :: rest =>
      {| at_x := (max_width - fst img) / 2; at_y := y_offset; pasted := img |}
        :: paste_loop max_width (y_offset + snd img) rest
  end.

(** The geometry of [__merge_images]: the size of the new image and the
    pastes into it; [None] where [max] raises. *)
Definition merge_images (images : list size) : option (size * list paste) :=
  let widths := map fst images in
  let heights := map snd images in
  match py_max widths with
  | None => None
  | Some max_width =>
      let total_height := py_sum heights in
      Some ((max_width, total_height), paste_loop max_width 0 images)
  end.

End Report.

(** * Concrete databases used as test inputs *)

Module Scenario.
Import Sync.

Definition mk_batch (n : Z) (task item order : string) : barcode_creation :=
  {| bc_id := n; task_code := py task; inv_code := py item;
     inv_name := py "controller"; order_code := py order |}.

Definition mk_barcode (n batch : Z) (c : string) (deleted : Z) : barcode_data :=
  {| bd_id := n; bd_bc_id := batch; bd_code := py c; delete_flag := deleted |}.

Definition mk_sn (order item c : string) : sn_row :=
  {| sales_order := py order; item_code := py item; sn_code := py c;
     import_source := py "excel"; entered_by := py "clerk";
     entered_at := py "2026-10-30 08:00:00" |}.

Definition fresh (conn : plus_db) : world :=
  {| plus := conn; txn := None; journal := [] |}.

Definition calm : env :=
  {| clock := py "2026-11-04 09:00:00"; fault_of := NoFault |}.

Definition failing (f : fault) : env :=
  {| clock := py "2026-11-04 09:00:00"; fault_of := f |}.

(** The end-to-end scenario of the specification: batch [{A1,A2,A3}] for
    order ["ORD-5"], [{A1,A2}] imported, nothing received or shipped. *)
Definition ord5 : barcode_creation := mk_batch 5 "T-5" "ITEM-1" "ORD-5".

Definition mes_ord5 : mes_db :=
  {| recent_barcode_creations := [ord5];
     jgmes_barcode_data :=
       [mk_barcode 51 5 "A1" 0; mk_barcode 52 5 "A2" 0; mk_barcode 53 5 "A3" 0] |}.

Definition plus_ord5 : plus_db :=
  {| sn_library := [mk_sn "ORD-5" "ITEM-1" "A1"; mk_sn "ORD-5" "ITEM-1" "A2"];
     stock := []; shipped := [] |}.

(** Two batches of two different orders, both out of step with PLUS, plus a
    row of a third order and a logically deleted barcode. *)
Definition po7 : barcode_creation := mk_batch 7 "T-7" "ITEM-1" "PO-7".
Definition po8 : barcode_creation := mk_batch 8 "T-8" "ITEM-2" "PO-8".

Definition mes_two : mes_db :=
  {| recent_barcode_creations := [po7; po8];
     jgmes_barcode_data :=
       [mk_barcode 71 7 "A1" 0; mk_barcode 72 7 "A2" 0; mk_barcode 73 7 "A0" 1;
        mk_barcode 81 8 "B1" 0] |}.

Definition plus_two : plus_db :=
  {| sn_library :=
       [mk_sn "PO-7" "ITEM-1" "A1"; mk_sn "PO-9" "ITEM-3" "C1";
        mk_sn "PO-7" "ITEM-1" "X2"; mk_sn "PO-8" "ITEM-2" "Y1"];
     stock := []; shipped := [] |}.

(** The first write transaction of the run fails at its delete. *)
Definition first_delete_fails (i : nat) : env :=
  match i with
  | O => failing FailDelete
  | S _ => calm
  end.

(** Two batches of one sales order: the raw order strings differ in their
    [-d-d] suffix only. *)
Definition so100_1 : barcode_creation := mk_batch 1 "T-1" "ITEM-1" "SO-100-1-1".
Definition so100_2 : barcode_creation := mk_batch 2 "T-2" "ITEM-1" "SO-100-1-2".

Definition mes_split : mes_db :=
  {| recent_barcode_creations := [so100_1; so100_2];
     jgmes_barcode_data := [mk_barcode 11 1 "A1" 0; mk_barcode 21 2 "B1" 0] |}.

Definition plus_split : plus_db :=
  {| sn_library := [mk_sn "SO-100" "ITEM-1" "X1"]; stock := []; shipped := [] |}.




End Scenario.

(** * Facts about the matcher *)

Module ReFacts.
Import Re.

Lemma star_loop_cls {A} items (k : str -> option A) fuel s :
  length s <= fuel ->
  star_loop (bt (Cls items)) k fuel s = greedy (in_class items) k s.
Proof.
  revert s. induction fuel as [|fuel IH]; intros s Hlen.
  - destruct s; simpl in *; [reflexivity | lia].
  - destruct s as [|c s']; simpl.
    + reflexivity.
    + destruct (in_class items c); [|reflexivity].
      replace (length s' <? S (length s')) with true
        by (symmetry; apply Nat.ltb_lt; lia).
      rewrite IH by (simpl in Hlen; lia). reflexivity.
Qed.

Lemma bt_star_cls {A} items (k : str -> option A) s :
  bt (Star (Cls items)) s k = greedy (in_class items) k s.
Proof. simpl. apply star_loop_cls. lia. Qed.

Lemma bt_plus_cls {A} items (k : str -> option A) s :
  bt (Plus (Cls items)) s k =
  match s with
  | c :: s' => if in_class items c then greedy (in_class items) k s' else None
  | [] => None
  end.
Proof.
  simpl. destruct s as [|c s']; [reflexivity|].
  destruct (in_class items c); [|reflexivity].
  apply star_loop_cls. lia.
Qed.

Lemma run_le p s : run p s <= length s.
Proof. induction s as [|c s IH]; simpl; [lia|]. destruct (p c); simpl; lia. Qed.

Lemma run_Forall p s n :
  n <= run p s -> Forall (fun c => p c = true) (take n s).
Proof.
  revert n. induction s as [|c s IH]; intros n Hn; simpl in *.
  - destruct n; constructor.
  - destruct n as [|n]; [constructor|]. simpl.
    destruct (p c) eqn:Hc; [|lia]. constructor; [exact Hc|]. apply IH. lia.
Qed.

Lemma Forall_run p m t :
  Forall (fun c => p c = true) m -> length m <= run p (m ++ t).
Proof.
  induction 1 as [|c m Hc _ IH]; simpl; [lia|]. rewrite Hc. lia.
Qed.

Lemma run_stop p s c t : drop (run p s) s = c :: t -> p c = false.
Proof.
  induction s as [|a s IH]; simpl; [discriminate|].
  destruct (p a) eqn:Ha; simpl; [exact IH|].
  intros [= <- _]. exact Ha.
Qed.

Lemma run_drop p s n : n <= run p s -> run p (drop n s) = run p s - n.
Proof.
  revert n. induction s as [|c s IH]; intros n Hn; simpl in *.
  - destruct n; reflexivity.
  - destruct n as [|n]; simpl.
    + destruct (p c); reflexivity.
    + destruct (p c); [|lia]. apply IH. lia.
Qed.

Lemma run_mono (p q : char -> bool) s :
  (forall c, p c = true -> q c = true) -> run p s <= run q s.
Proof.
  intros Hpq. induction s as [|c s IH]; simpl; [lia|].
  destruct (p c) eqn:Hc; [|lia]. rewrite (Hpq _ Hc). lia.
Qed.

(** When the continuation fails nowhere, greedy repetition takes the whole
    run and never backtracks. *)
Lemma greedy_total {A} p (k : str -> option A) s :
  (forall t, k t <> None) -> greedy p k s = k (drop (run p s) s).
Proof.
  intros Hk. induction s as [|c s IH]; simpl; [reflexivity|].
  destruct (p c); simpl; [|reflexivity].
  rewrite IH. unfold orelse.
  destruct (k (drop (run p s) s)) eqn:E; [reflexivity|].
  exfalso. exact (Hk _ E).
Qed.

(** A success of greedy repetition is a success of the continuation after
    some [n] characters of the run, and the continuation fails after every
    longer part of the run. *)
Lemma greedy_Some {A} p (k : str -> option A) s x :
  greedy p k s = Some x ->
  exists n, n <= run p s /\ k (drop n s) = Some x /\
            forall n', n < n' <= run p s -> k (drop n' s) = None.
Proof.
  revert x. induction s as [|c s IH]; intros x H; simpl in *.
  - exists O. split_and!; [lia | exact H | intros; lia].
  - destruct (p c) eqn:Hc.
    + unfold orelse in H. destruct (greedy p k s) as [y|] eqn:E.
      * injection H as ->. destruct (IH _ eq_refl) as (n & Hn & Hk & Hmax).
        exists (S n). split_and!; [lia | exact Hk |].
        intros n' Hn'. destruct n' as [|n']; [lia|]. simpl. apply Hmax. lia.
      * exists O. split_and!; [lia | exact H |].
        intros n' Hn'. destruct n' as [|n']; [lia|]. simpl.
        destruct (k (drop n' s)) eqn:Ek; [|reflexivity]. exfalso.
        clear IH H. revert n' Hn' Ek. clear Hc.
        induction s as [|d s IHs]; intros n' Hn' Ek; simpl in *.
        -- destruct n'; [simpl in Ek; congruence | lia].
        -- destruct (p d) eqn:Hd.
           ++ unfold orelse in E.
              destruct (greedy p k s) eqn:E'; [discriminate|].
              destruct n' as [|n']; [simpl in Ek; congruence|].
              simpl in Ek. eapply IHs; [reflexivity | | exact Ek]. lia.
           ++ destruct n'; [simpl in Ek; congruence | lia].
    + exists O. split_and!; [lia | exact H | intros; lia].
Qed.

(** A failure of greedy repetition is a failure of the continuation after
    every part of the run. *)
Lemma greedy_None {A} p (k : str -> option A) s :
  greedy p k s = None -> forall n, n <= run p s -> k (drop n s) = None.
Proof.
  induction s as [|c s IH]; intros H n Hn; simpl in *.
  - destruct n; [exact H | lia].
  - destruct (p c) eqn:Hc.
    + unfold orelse in H. destruct (greedy p k s) eqn:E; [discriminate|].
      destruct n as [|n]; [exact H|]. simpl. apply IH; [reflexivity | lia].
    + destruct n; [exact H | lia].
Qed.

(** [search_from] finds the first position with a match. *)
Lemma search_from_Some r pos s a b :
  search_from r pos s = Some (a, b) ->
  exists i n, a = pos + i /\ b = a + n /\ i <= length s /\
              match_here r (drop i s) = Some n /\
              forall i', i' < i -> match_here r (drop i' s) = None.
Proof.
  revert pos. induction s as [|c s IH]; intros pos H; simpl in H.
  - destruct (match_here r []) as [n|] eqn:E; [|discriminate].
    injection H as <- <-. exists O, n. simpl.
    split_and!; [lia | lia | lia | exact E | intros; lia].
  - destruct (match_here r (c :: s)) as [n|] eqn:E.
    + injection H as <- <-. exists O, n. simpl.
      split_and!; [lia | lia | lia | exact E | intros; lia].
    + destruct (IH _ H) as (i & n & -> & -> & Hi & Hm & Hfirst).
      exists (S i), n. simpl. split_and!; [lia | lia | lia | exact Hm |].
      intros i' Hi'. destruct i' as [|i']; [exact E|]. simpl. apply Hfirst. lia.
Qed.

Lemma search_from_None r pos s :
  search_from r pos s = None ->
  forall i, i <= length s -> match_here r (drop i s) = None.
Proof.
  revert pos. induction s as [|c s IH]; intros pos H i Hi; simpl in H.
  - destruct (match_here r []) eqn:E; [discriminate|].
    destruct i; [exact E | simpl in Hi; lia].
  - destruct (match_here r (c :: s)) eqn:E; [discriminate|].
    destruct i as [|i]; [exact E|]. simpl. eapply IH; [exact H|]. simpl in Hi. lia.
Qed.

Lemma search_from_fail r pos s :
  (forall i, i <= length s -> match_here r (drop i s) = None) ->
  search_from r pos s = None.
Proof.
  revert pos. induction s as [|c s IH]; intros pos H; simpl.
  - pose proof (H O ltac:(simpl; lia)) as H0. simpl in H0. rewrite H0.
    reflexivity.
  - pose proof (H O ltac:(simpl; lia)) as H0. simpl in H0. rewrite H0.
    apply IH.
    intros i Hi. apply (H (S i)). simpl. lia.
Qed.

(** [group(0)] of any span is a slice of the searched string. *)
Lemma group0_slice s m :
  s = take (fst m) s ++ group0 s m ++ drop (snd m - fst m) (drop (fst m) s).
Proof.
  unfold group0. rewrite (take_drop (snd m - fst m)).
  symmetry. apply take_drop.
Qed.

End ReFacts.

(** * Facts about the extraction of the order code *)

Module ExtractFacts.
Import Re ReFacts Extract.

Lemma greedy_ext {A} p (k k' : str -> option A) s :
  (forall t, k t = k' t) -> greedy p k s = greedy p k' s.
Proof.
  intros Hk. induction s as [|c s IH]; simpl; [apply Hk|].
  rewrite IH, Hk. reflexivity.
Qed.

Lemma upper_is_order_char c : is_upper c = true -> is_order_char c = true.
Proof.
  unfold is_upper, is_order_char, in_class, upper, upper_digit_hyphen. simpl.
  intros H. rewrite orb_false_r in H. rewrite H. reflexivity.
Qed.

Lemma bt_suffix t :
  bt suffix t (fun _ => Some tt) = if suffix_here t then Some tt else None.
Proof.
  unfold suffix, suffix_here, is_digit. simpl.
  destruct t as [|h1 [|d1 [|h2 [|d2 t]]]]; simpl;
    repeat match goal with
           | |- context [if ?b then _ else _] => destruct b eqn:?; simpl
           end; try reflexivity; try discriminate.
Qed.

(** The suffixed pattern at the head of [t], unfolded. *)
Lemma match_with_suffix t :
  match_here pattern_with_suffix t =
  match t with
  | c :: s' =>
      if is_upper c then
        greedy is_upper
          (greedy is_order_char
             (fun s2 => if suffix_here s2
                        then Some (length t - length s2) else None)) s'
      else None
  | [] => None
  end.
Proof.
  unfold match_here, pattern_with_suffix.
  change (bt (Cat ?a ?b) ?s ?k) with (bt a s (fun s1 => bt b s1 k)).
  rewrite bt_plus_cls. destruct t as [|c s']; [reflexivity|].
  change (in_class upper) with is_upper.
  change (in_class upper_digit_hyphen) with is_order_char.
  destruct (is_upper c); [|reflexivity].
  apply greedy_ext. intros s1.
  change (bt (Cat ?a ?b) ?s ?k) with (bt a s (fun s2 => bt b s2 k)).
  rewrite bt_star_cls. apply greedy_ext. intros s2.
  change (bt (Ahead ?r) ?s ?k)
    with (match bt r s (fun _ => Some tt) with Some _ => k s | None => None end).
  rewrite bt_suffix. destruct (suffix_here s2); reflexivity.
Qed.

(** The plain pattern at the head of [t]: it takes the whole run. *)
Lemma match_normal t :
  match_here pattern_normal t =
  match t with
  | c :: s' => if is_upper c then Some (S (run is_order_char s')) else None
  | [] => None
  end.
Proof.
  unfold match_here, pattern_normal.
  change (bt (Cat ?a ?b) ?s ?k) with (bt a s (fun s1 => bt b s1 k)).
  rewrite bt_plus_cls. destruct t as [|c s']; [reflexivity|].
  change (in_class upper) with is_upper.
  change (in_class upper_digit_hyphen) with is_order_char.
  destruct (is_upper c); [|reflexivity].
  rewrite (greedy_ext _ _ (greedy is_order_char
             (fun rest => Some (length (c :: s') - length rest))))
    by (intros; apply bt_star_cls).
  rewrite greedy_total.
  2:{ intros t. rewrite greedy_total by discriminate. discriminate. }
  rewrite greedy_total by discriminate.
  f_equal. rewrite !length_drop. simpl length.
  pose proof (run_le is_upper s').
  pose proof (run_le is_order_char s').
  pose proof (run_mono is_upper is_order_char s' upper_is_order_char) as Hm.
  rewrite (run_drop is_order_char s' _ Hm). lia.
Qed.

(** What a match of the suffixed pattern at the head of [t] looks like: an
    uppercase letter, then [j] characters of the run behind it, [-d-d]
    right after them, and no [-d-d] after any longer part of the run. *)
Lemma match_with_suffix_Some t n :
  match_here pattern_with_suffix t = Some n ->
  exists c s' j,
    t = c :: s' /\ is_upper c = true /\ n = S j /\
    j <= run is_order_char s' /\ suffix_here (drop j s') = true /\
    forall j', j < j' <= run is_order_char s' ->
               suffix_here (drop j' s') = false.
Proof.
  rewrite match_with_suffix. destruct t as [|c s']; [discriminate|].
  destruct (is_upper c) eqn:Hc; [|discriminate].
  intros H. apply greedy_Some in H as (j & Hj & H & _).
  apply greedy_Some in H as (l & Hl & H & Hmax).
  pose proof (run_mono is_upper is_order_char s' upper_is_order_char) as Hm.
  rewrite run_drop in Hl, Hmax by lia.
  rewrite drop_drop in H.
  destruct (suffix_here (drop (j + l) s')) eqn:Hs; [|discriminate].
  injection H as <-.
  pose proof (run_le is_order_char s') as Hle.
  exists c, s', (j + l). split_and!; try done.
  - rewrite length_drop. simpl. lia.
  - lia.
  - intros j' Hj'. specialize (Hmax (j' - j) ltac:(lia)).
    rewrite drop_drop in Hmax. replace (j + (j' - j)) with j' in Hmax by lia.
    destruct (suffix_here (drop j' s')); [discriminate | reflexivity].
Qed.

Lemma match_with_suffix_run t n :
  match_here pattern_with_suffix t = Some n ->
  n <= length t /\ order_run (take n t) /\ digit_suffix (drop n t).
Proof.
  intros H.
  apply match_with_suffix_Some in H
    as (c & s' & j & -> & Hc & -> & Hj & Hs & _).
  pose proof (run_le is_order_char s'). simpl. split_and!.
  - lia.
  - exists c, (take j s'). split_and!; [reflexivity | exact Hc |].
    apply run_Forall. exact Hj.
  - exact Hs.
Qed.

Lemma match_with_suffix_longest t n m' t' :
  match_here pattern_with_suffix t = Some n ->
  t = m' ++ t' -> order_run m' -> digit_suffix t' -> length m' <= n.
Proof.
  intros H -> (c & m'' & -> & _ & Hall) Hs.
  apply match_with_suffix_Some in H
    as (c0 & s' & j & Ht & _ & -> & Hj & _ & Hmax).
  simpl in Ht. injection Ht as <- <-. simpl.
  destruct (decide (length m'' <= j)) as [|Hgt]; [lia|]. exfalso.
  pose proof (Forall_run is_order_char m'' t' Hall) as Hrun.
  specialize (Hmax (length m'') ltac:(lia)).
  rewrite drop_app_length in Hmax. unfold digit_suffix in Hs. congruence.
Qed.

Lemma match_with_suffix_complete m' t' :
  order_run m' -> digit_suffix t' ->
  match_here pattern_with_suffix (m' ++ t') <> None.
Proof.
  intros (c & m'' & -> & Hc & Hall) Hs H.
  rewrite match_with_suffix in H. simpl in H. rewrite Hc in H.
  pose proof (greedy_None _ _ _ H O ltac:(lia)) as H1. rewrite drop_0 in H1.
  pose proof (greedy_None _ _ _ H1 (length m'')
                (Forall_run is_order_char m'' t' Hall)) as H2.
  cbv beta in H2. rewrite drop_app_length in H2. unfold digit_suffix in Hs.
  rewrite Hs in H2. discriminate.
Qed.

Lemma contains_suffix_iff s :
  contains_suffix s <-> exists pre t, s = pre ++ t /\ digit_suffix t.
Proof.
  unfold contains_suffix, digit_suffix. split.
  - induction s as [|c s IH]; simpl; [discriminate|].
    intros H. apply orb_true_iff in H as [H|H].
    + exists [], (c :: s). split; [reflexivity | exact H].
    + destruct (IH H) as (pre & t & -> & Ht).
      exists (c :: pre), t. split; [reflexivity | exact Ht].
  - intros (pre & t & -> & Ht). induction pre as [|c pre IH]; simpl.
    + destruct t; simpl in *; [discriminate|]. rewrite Ht. reflexivity.
    + rewrite IH. apply orb_true_r.
Qed.

Lemma no_suffix_no_match s :
  ~ contains_suffix s -> search pattern_with_suffix s = None.
Proof.
  intros Hno. apply search_from_fail. intros i Hi.
  destruct (match_here pattern_with_suffix (drop i s)) as [n|] eqn:E;
    [|reflexivity].
  exfalso. apply Hno. apply contains_suffix_iff.
  apply match_with_suffix_run in E as (_ & _ & Hs).
  exists (take i s ++ take n (drop i s)), (drop n (drop i s)).
  split; [|exact Hs].
  rewrite <- app_assoc, (take_drop n), take_drop. reflexivity.
Qed.

Lemma no_upper_no_match r s :
  r = pattern_with_suffix \/ r = pattern_normal ->
  (forall c, c ∈ s -> is_upper c = false) -> search r s = None.
Proof.
  intros Hr Hs. apply search_from_fail. intros i _.
  assert (match drop i s with c :: _ => is_upper c = false | [] => True end)
    as Hhead.
  { destruct (drop i s) as [|c t] eqn:E; [exact I|]. apply Hs.
    apply (subseteq_drop i s). rewrite E. apply elem_of_cons. by left. }
  destruct Hr as [-> | ->].
  - rewrite match_with_suffix. destruct (drop i s); [reflexivity|].
    rewrite Hhead. reflexivity.
  - rewrite match_normal. destruct (drop i s); [reflexivity|].
    rewrite Hhead. reflexivity.
Qed.

(** C10. For every input string the extracted order code is a contiguous
    piece of the input (some text before it, some text after it), so no
    character is invented; the function is total; and an input without any
    uppercase letter comes back unchanged. *)
Theorem extract_is_substring (s : str) :
  (exists pre post, s = pre ++ extract_order_number s ++ post) /\
  ((forall c, c ∈ s -> is_upper c = false) -> extract_order_number s = s).
Proof.
  split.
  - unfold extract_order_number.
    destruct (search pattern_with_suffix s) as [m|].
    { eexists _, _. apply group0_slice. }
    destruct (search pattern_normal s) as [m|].
    { eexists _, _. apply group0_slice. }
    exists [], []. rewrite app_nil_r. reflexivity.
  - intros Hs. unfold extract_order_number.
    rewrite (no_upper_no_match pattern_with_suffix s) by auto.
    rewrite (no_upper_no_match pattern_normal s) by auto.
    reflexivity.
Qed.

Lemma extract_is_substring_witness :
  (forall c, c ∈ py "2024/07-1-2 (rework)" -> is_upper c = false) /\
  extract_order_number (py "2024/07-1-2 (rework)") = py "2024/07-1-2 (rework)".
Proof.
  assert (forall c, c ∈ py "2024/07-1-2 (rework)" -> is_upper c = false) as H.
  { intros c Hc. apply list_elem_of_In in Hc. vm_compute in Hc.
    repeat (destruct Hc as [<- | Hc]; [reflexivity|]). destruct Hc. }
  split; [exact H|].
  apply (proj2 (extract_is_substring (py "2024/07-1-2 (rework)")) H).
Defined.

(** C3 (as stated) fails on its own example: in ["XYZ99-Note"] the capital
    [N] after the hyphen belongs to the run, so the result is ["XYZ99-N"]
    and not ["XYZ99"]. *)
Lemma extract_plain_counterexample :
  is_upper (ch "X") = true /\
  ~ contains_suffix (py "XYZ99-Note") /\
  extract_order_number (py "XYZ99-Note") = py "XYZ99-N" /\
  extract_order_number (py "XYZ99-Note") <> py "XYZ99".
Proof.
  split_and!; [reflexivity | discriminate | reflexivity | discriminate].
Qed.

(** C3 (amended). For every raw order string that has no [-d-d] in it and
    starts with an uppercase letter, the result is the longest prefix of
    the string made of uppercase letters, digits and hyphens: the string is
    the result followed by a rest, the result is an uppercase letter
    followed by such characters, and the rest is empty or starts with a
    character outside the class. In particular ["XYZ99-Note"] gives
    ["XYZ99-N"]. *)
Theorem extract_plain_form :
  (forall s c s',
      s = c :: s' -> is_upper c = true -> ~ contains_suffix s ->
      exists rest,
        s = extract_order_number s ++ rest /\
        order_run (extract_order_number s) /\
        forall x rest', rest = x :: rest' -> is_order_char x = false) /\
  extract_order_number (py "XYZ99-Note") = py "XYZ99-N".
Proof.
  split; [|reflexivity].
  intros s c s' -> Hc Hno. unfold extract_order_number.
  rewrite (no_suffix_no_match _ Hno).
  unfold search. simpl search_from. rewrite match_normal, Hc.
  unfold group0. simpl.
  exists (drop (run is_order_char s') s'). split_and!.
  - rewrite take_drop. reflexivity.
  - exists c, (take (run is_order_char s') s').
    split_and!; [reflexivity | exact Hc |]. apply run_Forall. lia.
  - intros x rest' Hrest. exact (run_stop _ _ _ _ Hrest).
Qed.

Lemma extract_plain_form_witness :
  exists rest,
    py "SO2407-018B rev" = extract_order_number (py "SO2407-018B rev") ++ rest /\
    order_run (extract_order_number (py "SO2407-018B rev")) /\
    forall x rest', rest = x :: rest' -> is_order_char x = false.
Proof.
  apply (proj1 extract_plain_form (py "SO2407-018B rev") (ch "S")
               (py "O2407-018B rev")); [reflexivity | reflexivity | discriminate].
Defined.

(** C8 (as stated) fails where no uppercase run stands before the suffix:
    ["abc-1-2"] ends in [-1-2], yet the result is the whole input, suffix
    included, and not a piece of the text before the suffix. *)
Lemma extract_suffixed_counterexample :
  py "abc-1-2" = py "abc" ++ py "-1-2" /\
  digit_suffix (py "-1-2") /\
  extract_order_number (py "abc-1-2") = py "abc-1-2" /\
  ~ (exists junk, py "abc" = junk ++ extract_order_number (py "abc-1-2")).
Proof.
  split_and!; [reflexivity | reflexivity | reflexivity |].
  intros (junk & H). apply (f_equal length) in H.
  rewrite length_app in H.
  change (length (py "abc")) with 3 in H.
  change (length (extract_order_number (py "abc-1-2"))) with 7 in H. lia.
Qed.

(** C8 (amended). For every raw order string in which some run (an
    uppercase letter followed by uppercase letters, digits and hyphens) has
    [-d-d] right behind it, the result is such a run with the suffix left
    out: the one that starts leftmost and, among those starting there, the
    longest. In particular ["ABC-123-1-2"] gives ["ABC-123"]. *)
Theorem extract_suffixed_form :
  (forall s,
      (exists pre m, suffixed_at s pre m) ->
      exists pre,
        suffixed_at s pre (extract_order_number s) /\
        forall pre' m',
          suffixed_at s pre' m' ->
          length pre <= length pre' /\
          (length pre' = length pre ->
           length m' <= length (extract_order_number s))) /\
  extract_order_number (py "ABC-123-1-2") = py "ABC-123".
Proof.
  split; [|reflexivity].
  intros s (pre0 & m0 & t0 & Hs0 & Hrun0 & Hsuf0).
  unfold extract_order_number.
  destruct (search pattern_with_suffix s) as [[a b]|] eqn:E.
  2:{ exfalso.
      pose proof (search_from_None _ _ _ E (length pre0)) as H.
      rewrite Hs0 in H. rewrite length_app, drop_app_length in H.
      exact (match_with_suffix_complete _ _ Hrun0 Hsuf0 (H ltac:(lia))). }
  apply search_from_Some in E as (i & n & -> & -> & Hi & Hm & Hfirst).
  unfold group0. simpl fst. simpl snd.
  simpl. replace (i + n - i) with n by lia.
  pose proof (match_with_suffix_run _ _ Hm) as (Hn & Hrun & Hsuf).
  exists (take i s). split.
  - exists (drop n (drop i s)). split_and!; [|exact Hrun | exact Hsuf].
    rewrite (take_drop n), take_drop. reflexivity.
  - intros pre' m' (t' & Hs' & Hrun' & Hsuf').
    rewrite length_take, Nat.min_l by exact Hi.
    assert (i <= length pre') as Hleft.
    { destruct (decide (i <= length pre')) as [|Hlt]; [assumption|].
      exfalso. specialize (Hfirst (length pre') ltac:(lia)).
      rewrite Hs' in Hfirst. rewrite drop_app_length in Hfirst.
      exact (match_with_suffix_complete _ _ Hrun' Hsuf' Hfirst). }
    split; [exact Hleft|]. intros Heq.
    rewrite length_take, Nat.min_l by exact Hn.
    apply (match_with_suffix_longest _ _ m' t' Hm); [|exact Hrun' | exact Hsuf'].
    rewrite Hs', <- Heq, drop_app_length. reflexivity.
Qed.

Lemma extract_suffixed_form_witness :
  exists pre,
    suffixed_at (py "zz A-1-2 B-3-4") pre
                (extract_order_number (py "zz A-1-2 B-3-4")) /\
    forall pre' m',
      suffixed_at (py "zz A-1-2 B-3-4") pre' m' ->
      length pre <= length pre' /\
      (length pre' = length pre ->
       length m' <= length (extract_order_number (py "zz A-1-2 B-3-4"))).
Proof.
  apply (proj1 extract_suffixed_form (py "zz A-1-2 B-3-4")).
  exists (py "zz A-1-2 "), (py "B"), (py "-3-4").
  split_and!; [reflexivity | | reflexivity].
  exists (ch "B"), []. split_and!; [reflexivity | reflexivity | constructor].
Defined.

End ExtractFacts.

(** * Facts about the reimport loop *)

Module SyncFacts.
Import Extract Sync.

(** One iteration, executed symbolically. *)
Lemma process_eq e mes bc w :
  process e mes bc w =
  let j0 := journal w ++ preamble mes bc w in
  let skip v m :=
    (Ok v, {| plus := plus w; txn := txn w;
              journal := j0 ++ [Log WARNING m] |}) in
  let n := (length (sn_library (plus w)) - length (other_rows (plus w) bc))%nat in
  let rows := fresh_rows e mes bc in
  let failed ex evs :=
    (Raise ex, {| plus := plus w; txn := None;
                  journal := j0 ++ evs ++ [Log ERROR (Reimport_failed ex)] |}) in
  if negb (length (mes_codes mes bc) =? length (plus_codes (plus w) bc))%nat
  then skip Skipped_count Count_differs_skip
  else if same_set (mes_codes mes bc) (plus_codes (plus w) bc)
  then skip Skipped_same Content_same_skip
  else if moved (plus w) (order_of bc)
  then skip Skipped_moved Moved_skip
  else
    match fault_of e with
    | NoFault =>
        (Ok Reimported,
         {| plus := {| sn_library := other_rows (plus w) bc ++ rows;
                       stock := stock (plus w);
                       shipped := shipped (plus w) |};
            txn := None;
            journal := j0 ++ [Sql_delete (order_of bc); Log INFO (Deleted n);
                              Sql_insert rows;
                              Log INFO (Inserted (length rows));
                              Sql_commit; Log INFO Reimport_ok] |})
    | FailDelete => failed (DatabaseError DELETE) []
    | FailInsert _ =>
        failed (DatabaseError INSERT)
               [Sql_delete (order_of bc); Log INFO (Deleted n); Sql_insert rows]
    | FailCommit =>
        failed (DatabaseError COMMIT)
               [Sql_delete (order_of bc); Log INFO (Deleted n); Sql_insert rows;
                Log INFO (Inserted (length rows))]
    end.
Proof.
  unfold process, preamble, same_set, moved, mes_codes, plus_codes, order_of,
    fresh_rows, other_rows.
  cbv zeta.
  unfold bind, log, emit, read, ret; simpl.
  repeat match goal with
         | |- context [if ?b then _ else _] => destruct b; simpl
         end; rewrite <- ?app_assoc; simpl; try reflexivity.
  all: unfold try_finally, try_except, bind, get_plus_txn_conn,
         delete_plus_imported_barcodes, insert_plus_barcodes, commit,
         close_txn, raise, log, emit, ret, set_working, working; simpl.
  all: destruct (fault_of e); simpl; rewrite <- ?app_assoc; simpl;
    rewrite ?length_map; reflexivity.
Qed.

Lemma writes_app j1 j2 : writes (j1 ++ j2) = writes j1 ++ writes j2.
Proof. apply List.filter_app. Qed.

Lemma same_set_refl l : same_set l l = true.
Proof. unfold same_set. apply bool_decide_eq_true. reflexivity. Qed.

Lemma filter_order_other (order : str) (l : list sn_row) :
  filter (fun r => sales_order r = order)
         (filter (fun r => sales_order r <> order) l) = [].
Proof.
  induction l as [|r l IH]; [reflexivity|].
  rewrite (filter_cons (fun r => sales_order r <> order)).
  destruct (decide (sales_order r <> order)) as [Hne|Heq]; [|exact IH].
  rewrite filter_cons_False by (intros Heq; exact (Hne Heq)). exact IH.
Qed.

Lemma filter_order_keep (order order' : str) (l : list sn_row) :
  order' <> order ->
  filter (fun r => sales_order r = order')
         (filter (fun r => sales_order r <> order) l)
  = filter (fun r => sales_order r = order') l.
Proof.
  intros Hne. induction l as [|r l IH]; [reflexivity|].
  rewrite (filter_cons (fun r => sales_order r <> order)).
  destruct (decide (sales_order r <> order)) as [Hr|Hr].
  - rewrite !filter_cons, IH. reflexivity.
  - rewrite IH, filter_cons_False; [reflexivity|].
    intros Heq. apply Hr. rewrite Heq. exact Hne.
Qed.

Lemma filter_fresh_rows e mes bc :
  filter (fun r => sales_order r = order_of bc) (fresh_rows e mes bc)
  = fresh_rows e mes bc.
Proof.
  unfold fresh_rows.
  induction (query_mes_barcode_creation_barcodes mes (bc_id bc)) as [|b l IH];
    [reflexivity|].
  simpl. rewrite filter_cons_True by reflexivity. rewrite IH. reflexivity.
Qed.

Lemma filter_fresh_rows_other e mes bc order :
  order <> order_of bc ->
  filter (fun r => sales_order r = order) (fresh_rows e mes bc) = [].
Proof.
  intros Hne. unfold fresh_rows.
  induction (query_mes_barcode_creation_barcodes mes (bc_id bc)) as [|b l IH];
    [reflexivity|].
  simpl. rewrite filter_cons_False; [exact IH|].
  simpl. intros Heq. apply Hne. symmetry. exact Heq.
Qed.

Lemma codes_of_fresh_rows e mes bc :
  map sn_code (fresh_rows e mes bc) = mes_codes mes bc.
Proof.
  unfold fresh_rows, mes_codes. rewrite map_map. reflexivity.
Qed.

Lemma fresh_rows_untouched e mes bc order :
  order <> order_of bc ->
  existsb (fun r => bool_decide (sales_order r = order)) (fresh_rows e mes bc)
  = false.
Proof.
  intros Hne. unfold fresh_rows.
  induction (query_mes_barcode_creation_barcodes mes (bc_id bc)) as [|b l IH];
    [reflexivity|].
  simpl. rewrite IH, bool_decide_eq_false_2; [reflexivity|].
  intros Heq. apply Hne. symmetry. exact Heq.
Qed.

(** After a committed reimport the library holds, for the order code, exactly
    the fresh rows. *)
Lemma imported_after_reimport e mes bc conn :
  query_plus_imported_barcodes
    {| sn_library := other_rows conn bc ++ fresh_rows e mes bc;
       stock := stock conn; shipped := shipped conn |} (order_of bc)
  = mes_codes mes bc.
Proof.
  unfold query_plus_imported_barcodes, other_rows. simpl.
  rewrite filter_app, filter_order_other, filter_fresh_rows. simpl.
  apply codes_of_fresh_rows.
Qed.

Lemma imported_elsewhere e mes bc conn order :
  order <> order_of bc ->
  query_plus_imported_barcodes
    {| sn_library := other_rows conn bc ++ fresh_rows e mes bc;
       stock := stock conn; shipped := shipped conn |} order
  = query_plus_imported_barcodes conn order.
Proof.
  intros Hne. unfold query_plus_imported_barcodes, other_rows. simpl.
  rewrite filter_app, filter_order_keep, filter_fresh_rows_other by exact Hne.
  rewrite app_nil_r. reflexivity.
Qed.

(** No iteration changes the stock or the shipment table. *)
Lemma process_movement e mes bc w :
  stock (plus (snd (process e mes bc w))) = stock (plus w) /\
  shipped (plus (snd (process e mes bc w))) = shipped (plus w).
Proof.
  rewrite process_eq. cbv zeta.
  repeat match goal with
         | |- context [if ?b then _ else _] => destruct b
         end; try (split; reflexivity).
  destruct (fault_of e); split; reflexivity.
Qed.

(** An iteration that stops at a guard changes nothing but the log. *)
Lemma process_settled e mes bc w :
  settled mes (plus w) bc = true ->
  exists v m,
    process e mes bc w =
    (Ok v, {| plus := plus w; txn := txn w;
              journal := journal w ++ preamble mes bc w ++ [Log WARNING m] |}).
Proof.
  unfold settled. intros H. rewrite process_eq. cbv zeta.
  rewrite <- !app_assoc.
  destruct (negb (length (mes_codes mes bc) =? length (plus_codes (plus w) bc)));
    [eexists _, _; reflexivity|].
  destruct (same_set (mes_codes mes bc) (plus_codes (plus w) bc));
    [eexists _, _; reflexivity|].
  destruct (moved (plus w) (order_of bc)); [eexists _, _; reflexivity|].
  discriminate.
Qed.

Lemma writes_preamble mes bc w j m :
  writes (j ++ preamble mes bc w ++ [Log WARNING m]) = writes j.
Proof. rewrite writes_app. simpl. apply app_nil_r. Qed.

(** C1 (as stated) fails on the end-to-end scenario of the specification:
    three upstream codes against two imported ones, nothing received or
    shipped. The iteration ends at the count guard, and no statement is
    written. *)
Lemma count_mismatch_counterexample :
  length (mes_codes Scenario.mes_ord5 Scenario.ord5)
    <> length (plus_codes Scenario.plus_ord5 Scenario.ord5) /\
  moved Scenario.plus_ord5 (order_of Scenario.ord5) = false /\
  fst (process Scenario.calm Scenario.mes_ord5 Scenario.ord5
               (Scenario.fresh Scenario.plus_ord5)) = Ok Skipped_count /\
  writes (journal (snd (process Scenario.calm Scenario.mes_ord5 Scenario.ord5
                                (Scenario.fresh Scenario.plus_ord5)))) = [].
Proof.
  split_and!; [vm_compute; lia | reflexivity | reflexivity | reflexivity].
Qed.

(** C1 (amended). For every processed batch whose upstream code list and
    imported code list differ in length, the iteration ends at that point:
    it logs the warning and goes on to the next batch, the PLUS database
    and the open-transaction state are as before, and no write statement
    is issued. *)
Theorem count_mismatch_skips e mes bc w :
  length (mes_codes mes bc) <> length (plus_codes (plus w) bc) ->
  process e mes bc w =
  (Ok Skipped_count,
   {| plus := plus w; txn := txn w;
      journal := journal w ++ preamble mes bc w
                           ++ [Log WARNING Count_differs_skip] |}) /\
  writes (journal (snd (process e mes bc w))) = writes (journal w).
Proof.
  intros Hne. rewrite process_eq. cbv zeta.
  apply Nat.eqb_neq in Hne. rewrite Hne. simpl negb. cbv iota.
  rewrite <- app_assoc. split; [reflexivity|].
  simpl snd. simpl journal. apply writes_preamble.
Qed.

Lemma count_mismatch_skips_witness :
  process Scenario.calm Scenario.mes_ord5 Scenario.ord5
          (Scenario.fresh Scenario.plus_ord5) =
  (Ok Skipped_count,
   {| plus := Scenario.plus_ord5; txn := None;
      journal := [] ++ preamble Scenario.mes_ord5 Scenario.ord5
                                (Scenario.fresh Scenario.plus_ord5)
                    ++ [Log WARNING Count_differs_skip] |}) /\
  writes (journal (snd (process Scenario.calm Scenario.mes_ord5 Scenario.ord5
                                (Scenario.fresh Scenario.plus_ord5))))
  = writes [].
Proof.
  apply (count_mismatch_skips Scenario.calm Scenario.mes_ord5 Scenario.ord5
                              (Scenario.fresh Scenario.plus_ord5)).
  vm_compute. lia.
Defined.

(** C7. For every batch whose upstream codes and imported codes are equal
    as sets, the iteration ends at the count guard or at the equality
    guard; the PLUS database is as before and no write statement is
    issued. *)
Theorem equal_sets_no_write e mes bc w :
  list_to_set (mes_codes mes bc) =@{gset str}
    list_to_set (plus_codes (plus w) bc) ->
  exists v w',
    process e mes bc w = (Ok v, w') /\
    (v = Skipped_count \/ v = Skipped_same) /\
    plus w' = plus w /\ txn w' = txn w /\
    writes (journal w') = writes (journal w).
Proof.
  intros Heq. rewrite process_eq. cbv zeta.
  destruct (negb (length (mes_codes mes bc) =? length (plus_codes (plus w) bc))).
  - eexists _, _. split_and!; [reflexivity | by left | reflexivity | reflexivity |].
    simpl. rewrite <- app_assoc. apply writes_preamble.
  - unfold same_set. rewrite bool_decide_eq_true_2 by exact Heq.
    eexists _, _. split_and!; [reflexivity | by right | reflexivity | reflexivity |].
    simpl. rewrite <- app_assoc. apply writes_preamble.
Qed.

Lemma equal_sets_no_write_witness :
  exists v w',
    process Scenario.calm Scenario.mes_split Scenario.so100_1
            (Scenario.fresh
               {| sn_library := [Scenario.mk_sn "SO-100" "ITEM-1" "A1";
                                 Scenario.mk_sn "SO-100" "ITEM-1" "A1"];
                  stock := []; shipped := [] |}) = (Ok v, w') /\
    (v = Skipped_count \/ v = Skipped_same) /\
    plus w' = {| sn_library := [Scenario.mk_sn "SO-100" "ITEM-1" "A1";
                                Scenario.mk_sn "SO-100" "ITEM-1" "A1"];
                 stock := []; shipped := [] |} /\
    txn w' = None /\ writes (journal w') = writes [].
Proof.
  apply (equal_sets_no_write Scenario.calm Scenario.mes_split Scenario.so100_1
           (Scenario.fresh
              {| sn_library := [Scenario.mk_sn "SO-100" "ITEM-1" "A1";
                                Scenario.mk_sn "SO-100" "ITEM-1" "A1"];
                 stock := []; shipped := [] |})).
  vm_compute. reflexivity.
Defined.

(** C4. When the insert of a batch's write transaction fails (after the
    delete ran, with any number of rows already written), the iteration
    raises, the transaction is closed without a commit, and the PLUS
    database is the one from before the transaction: the imported codes of
    the order code, and so their count, are the old ones. *)
Theorem insert_failure_rolls_back e mes bc w done :
  fault_of e = FailInsert done ->
  settled mes (plus w) bc = false ->
  exists w',
    process e mes bc w = (Raise (DatabaseError INSERT), w') /\
    In (Sql_delete (order_of bc)) (journal w') /\
    txn w' = None /\
    plus w' = plus w /\
    length (plus_codes (plus w') bc) = length (plus_codes (plus w) bc).
Proof.
  unfold settled. intros Hf Hs. rewrite process_eq. cbv zeta.
  apply orb_false_iff in Hs as [Hs Hm]. apply orb_false_iff in Hs as [Hc Hs].
  rewrite Hc, Hs, Hm, Hf.
  eexists. split_and!; try reflexivity.
  simpl journal. apply in_or_app. right. left. reflexivity.
Qed.

Lemma insert_failure_rolls_back_witness :
  exists w',
    process (Scenario.failing (FailInsert 1)) Scenario.mes_two Scenario.po7
            (Scenario.fresh Scenario.plus_two)
    = (Raise (DatabaseError INSERT), w') /\
    In (Sql_delete (order_of Scenario.po7)) (journal w') /\
    txn w' = None /\
    plus w' = Scenario.plus_two /\
    length (plus_codes (plus w') Scenario.po7)
    = length (plus_codes Scenario.plus_two Scenario.po7).
Proof.
  apply (insert_failure_rolls_back (Scenario.failing (FailInsert 1))
           Scenario.mes_two Scenario.po7 (Scenario.fresh Scenario.plus_two) 1);
    reflexivity.
Defined.




(** ** The loop *)

Lemma for_each_cons envs mes bc rest w :
  for_each envs mes (bc :: rest) w =
  match process (envs O) mes bc w with
  | (Ok _, w1) => for_each (fun i => envs (S i)) mes rest w1
  | (Raise ex, w1) => (Raise ex, w1)
  end.
Proof. reflexivity. Qed.

Lemma for_each_app envs mes l1 l2 w :
  for_each envs mes (l1 ++ l2) w =
  match for_each envs mes l1 w with
  | (Ok _, w1) => for_each (fun i => envs (length l1 + i)) mes l2 w1
  | (Raise ex, w1) => (Raise ex, w1)
  end.
Proof.
  revert envs w. induction l1 as [|bc l1 IH]; intros envs w.
  - reflexivity.
  - simpl app. rewrite !for_each_cons.
    destruct (process (envs O) mes bc w) as [[v|ex] w1]; [|reflexivity].
    rewrite IH. reflexivity.
Qed.

Lemma main_eq envs mes w :
  main envs mes w =
  let bcs := recent_barcode_creations mes in
  let w0 := {| plus := plus w; txn := txn w;
               journal := journal w ++ [Log INFO Run_started;
                                        Log INFO Mes_connected;
                                        Log INFO Plus_connected;
                                        Log INFO (Recent_count (length bcs))] |} in
  match for_each envs mes bcs w0 with
  | (Ok a, w1) => (Ok a, w1)
  | (Raise ex, w1) =>
      (Raise ex, {| plus := plus w1; txn := txn w1;
                    journal := journal w1 ++ [Log ERROR (Run_failed ex)] |})
  end.
Proof.
  unfold main, query_mes_recently_barcode_creations, try_except, bind, log,
    emit, raise. simpl. rewrite <- !app_assoc. simpl.
  destruct (for_each _ _ _ _) as [[a|ex] w1]; reflexivity.
Qed.

Lemma moved_frame conn conn' order :
  stock conn' = stock conn -> shipped conn' = shipped conn ->
  moved conn' order = moved conn order.
Proof.
  unfold moved, query_plus_incoming_barcodes, query_plus_outgoing_barcodes.
  intros -> ->. reflexivity.
Qed.

Lemma settled_frame mes conn conn' bc :
  plus_codes conn' bc = plus_codes conn bc ->
  moved conn' (order_of bc) = moved conn (order_of bc) ->
  settled mes conn' bc = settled mes conn bc.
Proof. unfold settled. intros -> ->. reflexivity. Qed.

(** An order code that is locked by a movement row, or that is not the
    order code of the batch, keeps its imported rows through the iteration,
    and no write statement of the iteration touches it. *)
Lemma process_untouched e mes bc w order :
  moved (plus w) order = true \/ order <> order_of bc ->
  query_plus_imported_barcodes (plus (snd (process e mes bc w))) order
  = query_plus_imported_barcodes (plus w) order /\
  List.filter (touches order) (writes (journal (snd (process e mes bc w))))
  = List.filter (touches order) (writes (journal w)).
Proof.
  intros H.
  destruct (settled mes (plus w) bc) eqn:Hs.
  { destruct (process_settled e mes bc w Hs) as (v & m & ->).
    cbn [snd plus journal]. rewrite writes_preamble. split; reflexivity. }
  assert (order <> order_of bc) as Hne.
  { destruct H as [Hm|Hne]; [|exact Hne]. intros ->.
    unfold settled in Hs. rewrite Hm, orb_true_r in Hs. discriminate. }
  unfold settled in Hs.
  apply orb_false_iff in Hs as [Hs Hm]. apply orb_false_iff in Hs as [Hc Hs].
  rewrite process_eq. cbv zeta. rewrite Hc, Hs, Hm.
  assert (bool_decide (order_of bc = order) = false) as Hd
      by (apply bool_decide_eq_false_2; congruence).
  destruct (fault_of e); simpl snd; simpl plus; simpl journal;
    rewrite ?imported_elsewhere by exact Hne;
    (split; [reflexivity|]);
    rewrite !writes_app, !List.filter_app; simpl;
    rewrite ?Hd, ?fresh_rows_untouched by exact Hne; simpl;
    rewrite ?app_nil_r; reflexivity.
Qed.

Lemma for_each_untouched mes bcs : forall envs w order,
  moved (plus w) order = true \/ order ∉ map order_of bcs ->
  query_plus_imported_barcodes (plus (snd (for_each envs mes bcs w))) order
  = query_plus_imported_barcodes (plus w) order /\
  List.filter (touches order) (writes (journal (snd (for_each envs mes bcs w))))
  = List.filter (touches order) (writes (journal w)) /\
  stock (plus (snd (for_each envs mes bcs w))) = stock (plus w) /\
  shipped (plus (snd (for_each envs mes bcs w))) = shipped (plus w).
Proof.
  induction bcs as [|bc rest IH]; intros envs w order H.
  - simpl. split_and!; reflexivity.
  - rewrite for_each_cons.
    pose proof (process_movement (envs O) mes bc w) as [Hst Hsh].
    pose proof (process_untouched (envs O) mes bc w order) as Hp.
    destruct Hp as [Hi Hw].
    { destruct H as [H|H]; [by left | right].
      intros ->. apply H. simpl. apply elem_of_cons. by left. }
    destruct (process (envs O) mes bc w) as [[v|ex] w1]; simpl in *.
    + destruct (IH (fun i => envs (S i)) w1 order) as (Hi' & Hw' & Hst' & Hsh').
      { destruct H as [H|H].
        - left. rewrite <- H. apply moved_frame; assumption.
        - right. intros Hin. apply H. apply elem_of_cons. by right. }
      split_and!; congruence.
    + split_and!; assumption.
Qed.

(** An iteration that returns leaves its batch stopped by a guard: either
    it was stopped already, or the imported codes are now the upstream
    ones. *)
Lemma process_Ok_settles e mes bc w v w' :
  process e mes bc w = (Ok v, w') -> settled mes (plus w') bc = true.
Proof.
  destruct (settled mes (plus w) bc) eqn:Hs.
  { destruct (process_settled e mes bc w Hs) as (v0 & m & ->).
    intros [= _ <-]. exact Hs. }
  unfold settled in Hs.
  apply orb_false_iff in Hs as [Hs Hm]. apply orb_false_iff in Hs as [Hc Hs].
  rewrite process_eq. cbv zeta. rewrite Hc, Hs, Hm.
  destruct (fault_of e); try discriminate.
  intros [= _ <-]. unfold settled, plus_codes. simpl plus.
  rewrite imported_after_reimport, same_set_refl.
  rewrite orb_true_r. reflexivity.
Qed.

Lemma for_each_Ok_settled mes bcs : forall envs w w',
  NoDup (map order_of bcs) ->
  for_each envs mes bcs w = (Ok tt, w') ->
  forall bc, bc ∈ bcs -> settled mes (plus w') bc = true.
Proof.
  induction bcs as [|bc0 rest IH]; intros envs w w' Hnd Hrun bc Hin.
  - apply elem_of_nil in Hin. destruct Hin.
  - simpl in Hnd. apply NoDup_cons in Hnd as [Hfresh Hnd].
    rewrite for_each_cons in Hrun.
    destruct (process (envs O) mes bc0 w) as [[v|ex] w1] eqn:Hp;
      [|discriminate].
    apply elem_of_cons in Hin as [->|Hin].
    + pose proof (process_Ok_settles _ _ _ _ _ _ Hp) as Hs.
      pose proof (for_each_untouched mes rest (fun i => envs (S i)) w1
                    (order_of bc0) (or_intror Hfresh))
        as (Hi & _ & Hst & Hsh).
      rewrite Hrun in Hi, Hst, Hsh. simpl in Hi, Hst, Hsh.
      rewrite <- Hs. apply settled_frame; [exact Hi|].
      apply moved_frame; assumption.
    + exact (IH _ _ _ Hnd Hrun bc Hin).
Qed.

(** When every batch is stopped by a guard the loop only logs. *)
Lemma for_each_settled mes bcs : forall envs w,
  (forall bc, bc ∈ bcs -> settled mes (plus w) bc = true) ->
  exists w',
    for_each envs mes bcs w = (Ok tt, w') /\
    plus w' = plus w /\ txn w' = txn w /\
    writes (journal w') = writes (journal w).
Proof.
  induction bcs as [|bc rest IH]; intros envs w Hall.
  - exists w. split_and!; reflexivity.
  - rewrite for_each_cons.
    destruct (process_settled (envs O) mes bc w) as (v & m & ->).
    { apply Hall. apply elem_of_cons. by left. }
    destruct (IH (fun i => envs (S i))
                 {| plus := plus w; txn := txn w;
                    journal := journal w ++ preamble mes bc w ++ [Log WARNING m] |})
      as (w' & -> & Hp & Ht & Hw).
    { intros bc' Hin. simpl. apply Hall. apply elem_of_cons. by right. }
    exists w'. split_and!; [reflexivity | exact Hp | exact Ht |].
    rewrite Hw. cbn [journal]. apply writes_preamble.
Qed.

(** C5. For every order code with an incoming or an outgoing row, a whole
    run leaves the imported rows of that order code as they are and issues
    no write statement that touches it, whatever the upstream codes are;
    and whenever an iteration issues a write statement, no incoming and no
    outgoing row exists for its order code in the state the iteration
    checked. *)
Theorem movement_lock :
  (forall envs mes w order,
      moved (plus w) order = true ->
      query_plus_imported_barcodes (plus (snd (main envs mes w))) order
      = query_plus_imported_barcodes (plus w) order /\
      List.filter (touches order) (writes (journal (snd (main envs mes w))))
      = List.filter (touches order) (writes (journal w))) /\
  (forall e mes bc w,
      writes (journal (snd (process e mes bc w))) <> writes (journal w) ->
      query_plus_incoming_barcodes (plus w) (order_of bc) = [] /\
      query_plus_outgoing_barcodes (plus w) (order_of bc) = []).
Proof.
  split.
  - intros envs mes w order Hm. rewrite main_eq. cbv zeta.
    match goal with
    | |- context [for_each envs mes ?bcs ?w0] =>
        pose proof (for_each_untouched mes bcs envs w0 order (or_introl Hm))
          as (Hi & Hw & _ & _);
        destruct (for_each envs mes bcs w0) as [[a|ex] w1]
    end; cbn [snd plus journal] in *.
    + rewrite Hi, Hw, writes_app. simpl. rewrite app_nil_r.
      split; reflexivity.
    + rewrite Hi, writes_app, List.filter_app, Hw, writes_app. simpl.
      rewrite !app_nil_r. split; reflexivity.
  - intros e mes bc w Hw.
    destruct (settled mes (plus w) bc) eqn:Hs.
    { exfalso. apply Hw.
      destruct (process_settled e mes bc w Hs) as (v & m & ->).
      cbn [snd journal]. apply writes_preamble. }
    unfold settled in Hs. apply orb_false_iff in Hs as [_ Hm].
    unfold moved in Hm. apply orb_false_iff in Hm as [Hin Hout].
    split.
    + destruct (query_plus_incoming_barcodes (plus w) (order_of bc));
        [reflexivity | discriminate].
    + destruct (query_plus_outgoing_barcodes (plus w) (order_of bc));
        [reflexivity | discriminate].
Qed.

Lemma movement_lock_witness :
  query_plus_imported_barcodes
    (plus (snd (main (fun _ => Scenario.calm) Scenario.mes_two
                     (Scenario.fresh
                        {| sn_library := sn_library Scenario.plus_two;
                           stock := [];
                           shipped := [{| mv_sales_order := py "PO-7";
                                          mv_sn_code := py "A1" |}] |}))))
    (py "PO-7")
  = [py "A1"; py "X2"] /\
  query_plus_incoming_barcodes Scenario.plus_two (order_of Scenario.po7) = [].
Proof.
  split.
  - apply (proj1 movement_lock (fun _ => Scenario.calm) Scenario.mes_two
             (Scenario.fresh
                {| sn_library := sn_library Scenario.plus_two;
                   stock := [];
                   shipped := [{| mv_sales_order := py "PO-7";
                                  mv_sn_code := py "A1" |}] |})
             (py "PO-7")).
    reflexivity.
  - apply (proj2 movement_lock Scenario.calm Scenario.mes_two Scenario.po7
             (Scenario.fresh Scenario.plus_two)).
    vm_compute. discriminate.
Defined.

(** C2 (as stated) fails: the first batch's write transaction fails at its
    delete, the run ends with that exception, and the second batch, whose
    codes are out of step as well, is never looked at. *)
Lemma reimport_failure_counterexample :
  fst (main Scenario.first_delete_fails Scenario.mes_two
            (Scenario.fresh Scenario.plus_two))
  = Raise (DatabaseError DELETE) /\
  settled Scenario.mes_two Scenario.plus_two Scenario.po8 = false /\
  List.filter is_processing
    (journal (snd (main Scenario.first_delete_fails Scenario.mes_two
                        (Scenario.fresh Scenario.plus_two))))
  = [Log INFO (Processing (py "T-7") (py "PO-7"))] /\
  fst (main (fun _ => Scenario.calm) Scenario.mes_two
            (Scenario.fresh Scenario.plus_two)) = Ok tt /\
  List.filter is_processing
    (journal (snd (main (fun _ => Scenario.calm) Scenario.mes_two
                        (Scenario.fresh Scenario.plus_two))))
  = [Log INFO (Processing (py "T-7") (py "PO-7"));
     Log INFO (Processing (py "T-8") (py "PO-8"))].
Proof. split_and!; reflexivity. Qed.

(** C2 (amended). If the delete or the insert of one batch's write
    transaction fails, the transaction is closed without a commit (the PLUS
    database is the one from before the transaction), the error is logged,
    and the exception is raised again: the loop ends there, so no later
    batch is processed. *)
Theorem reimport_failure_ends_run envs mes done bc rest w w1 :
  for_each envs mes done w = (Ok tt, w1) ->
  settled mes (plus w1) bc = false ->
  (fault_of (envs (length done)) = FailDelete \/
   exists k, fault_of (envs (length done)) = FailInsert k) ->
  exists ex w',
    for_each envs mes (done ++ bc :: rest) w = (Raise ex, w') /\
    plus w' = plus w1 /\ txn w' = None /\
    last (journal w') = Some (Log ERROR (Reimport_failed ex)) /\
    List.filter is_processing (journal w')
    = List.filter is_processing (journal w1)
        ++ [Log INFO (Processing (task_code bc) (order_of bc))].
Proof.
  intros Hdone Hs Hf. rewrite for_each_app, Hdone, for_each_cons.
  rewrite Nat.add_0_r. rewrite process_eq. cbv zeta.
  unfold settled in Hs.
  apply orb_false_iff in Hs as [Hs Hm]. apply orb_false_iff in Hs as [Hc Hs].
  rewrite Hc, Hs, Hm.
  destruct Hf as [-> | [k ->]]; eexists _, _;
    (split_and!; [reflexivity | reflexivity | reflexivity | |]);
    cbn [journal]; rewrite ?app_assoc; try apply last_snoc;
    rewrite <- ?app_assoc; rewrite !List.filter_app; simpl;
    rewrite ?app_nil_r; reflexivity.
Qed.

Lemma reimport_failure_ends_run_witness :
  exists ex w',
    for_each (fun i => match i with
                       | 1 => Scenario.failing (FailInsert 0)
                       | _ => Scenario.calm
                       end)
             Scenario.mes_two ([Scenario.po7] ++ Scenario.po8 :: [Scenario.po7])
             (Scenario.fresh Scenario.plus_two) = (Raise ex, w') /\
    plus w' = plus (snd (for_each (fun _ => Scenario.calm) Scenario.mes_two
                                  [Scenario.po7]
                                  (Scenario.fresh Scenario.plus_two))) /\
    txn w' = None /\
    last (journal w') = Some (Log ERROR (Reimport_failed ex)) /\
    List.filter is_processing (journal w')
    = [Log INFO (Processing (py "T-7") (py "PO-7"))]
        ++ [Log INFO (Processing (py "T-8") (py "PO-8"))].
Proof.
  apply (reimport_failure_ends_run
           (fun i => match i with
                     | 1 => Scenario.failing (FailInsert 0)
                     | _ => Scenario.calm
                     end)
           Scenario.mes_two [Scenario.po7] Scenario.po8 [Scenario.po7]
           (Scenario.fresh Scenario.plus_two)
           (snd (for_each (fun _ => Scenario.calm) Scenario.mes_two
                          [Scenario.po7] (Scenario.fresh Scenario.plus_two)))).
  - vm_compute. reflexivity.
  - vm_compute. reflexivity.
  - right. exists 0. reflexivity.
Defined.

(** C9 (as stated) fails when two batches of the run share an order code:
    the raw orders ["SO-100-1-1"] and ["SO-100-1-2"] both give ["SO-100"].
    The first run reimports for the one batch and then for the other; the
    second run, on unchanged data, finds the first batch out of step again
    and writes once more. *)
Lemma second_run_counterexample :
  order_of Scenario.so100_1 = order_of Scenario.so100_2 /\
  fst (main (fun _ => Scenario.calm) Scenario.mes_split
            (Scenario.fresh Scenario.plus_split)) = Ok tt /\
  fst (main (fun _ => Scenario.calm) Scenario.mes_split
            (snd (main (fun _ => Scenario.calm) Scenario.mes_split
                       (Scenario.fresh Scenario.plus_split)))) = Ok tt /\
  writes (journal
            (snd (main (fun _ => Scenario.calm) Scenario.mes_split
              (snd (main (fun _ => Scenario.calm) Scenario.mes_split
                         (Scenario.fresh Scenario.plus_split))))))
  <> writes (journal
               (snd (main (fun _ => Scenario.calm) Scenario.mes_split
                          (Scenario.fresh Scenario.plus_split)))) /\
  length (writes (journal
            (snd (main (fun _ => Scenario.calm) Scenario.mes_split
                       (Scenario.fresh Scenario.plus_split))))) = 4 /\
  length (writes (journal
            (snd (main (fun _ => Scenario.calm) Scenario.mes_split
              (snd (main (fun _ => Scenario.calm) Scenario.mes_split
                         (Scenario.fresh Scenario.plus_split))))))) = 8.
Proof.
  split_and!; try (vm_compute; reflexivity).
  intros H. apply (f_equal length) in H. vm_compute in H. discriminate.
Qed.

(** C9 (amended). When the batches of a run have pairwise different order
    codes and the run ends without an exception, a second run on the
    resulting state, with the same upstream data, ends without an exception
    too, leaves the PLUS database as it is and issues no write statement:
    every batch is stopped by the guard that stopped it before or, if it
    was reimported, by the equality guard. *)
Theorem second_run_no_write envs1 envs2 mes w w1 :
  NoDup (map order_of (recent_barcode_creations mes)) ->
  main envs1 mes w = (Ok tt, w1) ->
  exists w2,
    main envs2 mes w1 = (Ok tt, w2) /\
    plus w2 = plus w1 /\
    writes (journal w2) = writes (journal w1).
Proof.
  intros Hnd. rewrite !main_eq. cbv zeta.
  destruct (for_each envs1 _ _ _) as [[[]|ex] w1'] eqn:Hrun; [|discriminate].
  intros [= ->].
  pose proof (for_each_Ok_settled _ _ _ _ _ Hnd Hrun) as Hall.
  match goal with
  | |- context [for_each envs2 mes ?bcs ?w0] =>
      destruct (for_each_settled mes bcs envs2 w0 Hall)
        as (w2 & -> & Hp & _ & Hw)
  end.
  exists w2. split_and!; [reflexivity | exact Hp |].
  rewrite Hw. cbn [journal]. rewrite writes_app. simpl. apply app_nil_r.
Qed.

Lemma second_run_no_write_witness :
  exists w2,
    main Scenario.first_delete_fails Scenario.mes_two
         (snd (main (fun _ => Scenario.calm) Scenario.mes_two
                    (Scenario.fresh Scenario.plus_two))) = (Ok tt, w2) /\
    plus w2 = plus (snd (main (fun _ => Scenario.calm) Scenario.mes_two
                              (Scenario.fresh Scenario.plus_two))) /\
    writes (journal w2)
    = writes (journal (snd (main (fun _ => Scenario.calm) Scenario.mes_two
                                 (Scenario.fresh Scenario.plus_two)))).
Proof.
  apply (second_run_no_write (fun _ => Scenario.calm)
           Scenario.first_delete_fails Scenario.mes_two
           (Scenario.fresh Scenario.plus_two)).
  - apply (bool_decide_unpack _). vm_compute. exact I.
  - vm_compute. reflexivity.
Defined.

End SyncFacts.

(** * Facts about the report parts and the merged image *)

Module ReportFacts.
Import Report.
Local Open Scope Z_scope.

Lemma fold_max_ge l : forall x, x <= fold_left Z.max l x.
Proof.
  induction l as [|y l IH]; intros x; simpl; [lia|].
  specialize (IH (Z.max x y)). lia.
Qed.

Lemma fold_max_elem l : forall x y, y ∈ l -> y <= fold_left Z.max l x.
Proof.
  induction l as [|z l IH]; intros x y Hy; simpl.
  - apply elem_of_nil in Hy. destruct Hy.
  - apply elem_of_cons in Hy as [->|Hy].
    + pose proof (fold_max_ge l (Z.max x z)). lia.
    + apply IH. exact Hy.
Qed.

Lemma fold_max_in l : forall x,
  fold_left Z.max l x = x \/ fold_left Z.max l x ∈ l.
Proof.
  induction l as [|y l IH]; intros x; simpl; [by left|].
  destruct (IH (Z.max x y)) as [H|H].
  - rewrite H. destruct (Z.max_spec x y) as [[_ ->] | [_ ->]].
    + right. apply elem_of_cons. by left.
    + by left.
  - right. apply elem_of_cons. by right.
Qed.

Lemma py_max_in l m : py_max l = Some m -> m ∈ l.
Proof.
  destruct l as [|x l]; simpl; [discriminate|]. intros [= <-].
  destruct (fold_max_in l x) as [-> | H]; apply elem_of_cons; [by left | by right].
Qed.

Lemma py_max_bound l m y : py_max l = Some m -> y ∈ l -> y <= m.
Proof.
  destruct l as [|x l]; simpl; [discriminate|]. intros [= <-] Hy.
  apply elem_of_cons in Hy as [->|Hy];
    [apply fold_max_ge | apply fold_max_elem; exact Hy].
Qed.

Lemma fold_add_shift l : forall a, fold_left Z.add l a = a + py_sum l.
Proof.
  unfold py_sum. induction l as [|x l IH]; intros a; cbn [fold_left]; [lia|].
  rewrite (IH (a + x)), (IH (0 + x)). lia.
Qed.

Lemma py_sum_cons x l : py_sum (x :: l) = x + py_sum l.
Proof. unfold py_sum at 1. cbn [fold_left]. rewrite fold_add_shift. lia. Qed.

Lemma py_sum_nonneg l : Forall (fun h => 0 <= h) l -> 0 <= py_sum l.
Proof.
  induction 1 as [|x l Hx _ IH]; [unfold py_sum; simpl; lia|].
  rewrite py_sum_cons. lia.
Qed.

Lemma paste_loop_pasted W images : forall y,
  map pasted (paste_loop W y images) = images.
Proof.
  induction images as [|img rest IH]; intros y; simpl; [reflexivity|].
  rewrite IH. reflexivity.
Qed.

Lemma paste_loop_rows W images : forall y,
  Forall (fun img => 0 <= snd img) images ->
  Forall (fun p => y <= at_y p /\
                   at_y p + snd (pasted p) <= y + py_sum (map snd images))
         (paste_loop W y images).
Proof.
  induction images as [|img rest IH]; intros y Hh; simpl; [constructor|].
  apply Forall_cons in Hh as [Hh Hrest].
  pose proof (py_sum_nonneg (map snd rest)) as Hs.
  rewrite Forall_fmap in Hs. specialize (Hs Hrest).
  rewrite py_sum_cons. constructor; simpl; [lia|].
  eapply Forall_impl; [apply IH; exact Hrest|].
  simpl. intros p Hp. lia.
Qed.

Lemma paste_loop_columns W images y :
  Forall (fun img => 0 <= fst img <= W) images ->
  Forall (fun p => 0 <= at_x p /\ at_x p + fst (pasted p) <= W /\
                   0 <= W - fst (pasted p) - 2 * at_x p <= 1)
         (paste_loop W y images).
Proof.
  revert y. induction images as [|img rest IH]; intros y Hw; simpl;
    [constructor|].
  apply Forall_cons in Hw as [Hw Hrest]. constructor; [|apply IH; exact Hrest].
  simpl. pose proof (Z.div_mod (W - fst img) 2 ltac:(lia)) as Hd.
  pose proof (Z.mod_pos_bound (W - fst img) 2 ltac:(lia)). lia.
Qed.

Lemma paste_loop_stacked W images : forall y l1 p q l2,
  paste_loop W y images = l1 ++ p :: q :: l2 ->
  at_y q = at_y p + snd (pasted p).
Proof.
  induction images as [|img rest IH]; intros y l1 p q l2 H; simpl in H.
  - destruct l1; discriminate.
  - destruct l1 as [|p0 l1]; simpl in H.
    + injection H as <- H. destruct rest as [|img2 rest]; simpl in H;
        [discriminate|]. injection H as <- _. reflexivity.
    + injection H as _ H. exact (IH _ _ _ _ _ H).
Qed.

(** Merged image, edge and layout. Without any image [max] raises. With at
    least one image, all of sizes that are not negative: the new image is as
    wide as the widest part (its width is the width of one of the parts and
    no part is wider) and as high as all parts together; the parts are
    pasted in the given order; each one lies inside the new image, centred
    up to one pixel; the first one starts at the top and each next one starts
    where the one before it ends. *)
Theorem merge_images_layout :
  merge_images [] = None /\
  forall images,
    images <> [] ->
    Forall (fun img => 0 <= fst img /\ 0 <= snd img) images ->
    exists W H pastes,
      merge_images images = Some ((W, H), pastes) /\
      H = py_sum (map snd images) /\
      (exists img, img ∈ images /\ fst img = W) /\
      (forall img, img ∈ images -> fst img <= W) /\
      map pasted pastes = images /\
      Forall (fun p => 0 <= at_x p /\ at_x p + fst (pasted p) <= W /\
                       0 <= W - fst (pasted p) - 2 * at_x p <= 1 /\
                       0 <= at_y p /\ at_y p + snd (pasted p) <= H) pastes /\
      (forall p rest, pastes = p :: rest -> at_y p = 0) /\
      (forall l1 p q l2, pastes = l1 ++ p :: q :: l2 ->
                         at_y q = at_y p + snd (pasted p)).
Proof.
  split; [reflexivity|]. intros images Hne Hnn. unfold merge_images.
  destruct (py_max (map fst images)) as [W|] eqn:HW.
  2:{ destruct images; [contradiction | discriminate]. }
  assert (forall img, img ∈ images -> fst img <= W) as Hwide.
  { intros img Hin. apply (py_max_bound _ _ _ HW).
    apply list_elem_of_fmap. exists img. split; [reflexivity | exact Hin]. }
  eexists _, _, _.
  split_and!; [reflexivity | reflexivity | | exact Hwide | | | |].
  - apply py_max_in in HW. apply list_elem_of_fmap in HW as (img & -> & Hin).
    exists img. split; [exact Hin | reflexivity].
  - apply paste_loop_pasted.
  - assert (Forall (fun img => 0 <= fst img <= W) images) as Hcols.
    { apply Forall_forall. intros img Hin.
      rewrite Forall_forall in Hnn. specialize (Hnn img Hin).
      specialize (Hwide img Hin). lia. }
    assert (Forall (fun img => 0 <= snd img) images) as Hrows.
    { eapply Forall_impl; [exact Hnn|]. simpl. intros img Himg. lia. }
    pose proof (paste_loop_columns W images 0 Hcols) as Hc.
    pose proof (paste_loop_rows W images 0 Hrows) as Hr.
    rewrite Forall_forall in Hc, Hr. apply Forall_forall. intros p Hp.
    specialize (Hc p Hp). specialize (Hr p Hp). lia.
  - intros p rest Hp. destruct images as [|img images]; simpl in Hp;
      [discriminate|]. injection Hp as <- _. reflexivity.
  - apply paste_loop_stacked.
Qed.

Lemma merge_images_layout_witness :
  exists W H pastes,
    merge_images [(640, 40); (1280, 300); (1279, 25)] = Some ((W, H), pastes) /\
    H = py_sum (map snd [(640, 40); (1280, 300); (1279, 25)]) /\
    (exists img, img ∈ [(640, 40); (1280, 300); (1279, 25)] /\ fst img = W) /\
    (forall img, img ∈ [(640, 40); (1280, 300); (1279, 25)] -> fst img <= W) /\
    map pasted pastes = [(640, 40); (1280, 300); (1279, 25)] /\
    Forall (fun p => 0 <= at_x p /\ at_x p + fst (pasted p) <= W /\
                     0 <= W - fst (pasted p) - 2 * at_x p <= 1 /\
                     0 <= at_y p /\ at_y p + snd (pasted p) <= H) pastes /\
    (forall p rest, pastes = p :: rest -> at_y p = 0) /\
    (forall l1 p q l2, pastes = l1 ++ p :: q :: l2 ->
                       at_y q = at_y p + snd (pasted p)).
Proof.
  apply (proj2 merge_images_layout [(640, 40); (1280, 300); (1279, 25)]).
  - discriminate.
  - repeat constructor; simpl; lia.
Defined.

Lemma month_cases month :
  1 <= month <= 12 ->
  month = 1 \/ month = 2 \/ month = 3 \/ month = 4 \/ month = 5 \/ month = 6 \/
  month = 7 \/ month = 8 \/ month = 9 \/ month = 10 \/ month = 11 \/ month = 12.
Proof. lia. Qed.

Lemma merge_months_shot month m :
  1 <= month <= 12 -> m ∈ merge_months month -> m ∈ shot_months month.
Proof.
  intros Hm Hin. apply list_elem_of_In. apply list_elem_of_In in Hin.
  apply month_cases in Hm.
  repeat (destruct Hm as [-> | Hm]); try subst month;
    vm_compute in Hin; vm_compute; lia.
Qed.

Lemma merge_months_length month :
  1 <= month <= 12 -> length (merge_months month) = 3%nat.
Proof.
  intros Hm. apply month_cases in Hm.
  repeat (destruct Hm as [-> | Hm]); try subst month; reflexivity.
Qed.

(** Month parts, in a calendar month: the month parts merged are the current
    month and the two months after it, wrapping from December to January,
    latest first. *)
Theorem merge_months_wrap month :
  1 <= month <= 12 ->
  merge_months month = [(month + 1) mod 12 + 1; month mod 12 + 1; month].
Proof.
  intros Hm. apply month_cases in Hm.
  repeat (destruct Hm as [-> | Hm]); try subst month; vm_compute; reflexivity.
Qed.

Lemma merge_months_wrap_witness :
  merge_months 11 = [(11 + 1) mod 12 + 1; 11 mod 12 + 1; 11].
Proof. apply (merge_months_wrap 11). lia. Defined.

(** Files merged, in a calendar month: every file handed to the merge is one
    of the files captured before, whatever the directory, the report name and
    the tail flag; and the merge gets the head, the delayed shipments, the
    tail goods if asked for, and three months. *)
Theorem merge_order_captured temp_dir report has_tail month :
  1 <= month <= 12 ->
  (forall p, p ∈ snd (company_shipment_paths temp_dir report has_tail month) ->
             p ∈ fst (company_shipment_paths temp_dir report has_tail month)) /\
  length (snd (company_shipment_paths temp_dir report has_tail month))
  = (if has_tail then 6 else 5)%nat.
Proof.
  intros Hm. unfold company_shipment_paths. cbv zeta. cbn [fst snd].
  split.
  - intros p Hp. rewrite !elem_of_app in Hp. rewrite !elem_of_app.
    destruct Hp as [Hp | [Hp | Hp]]; [by left | right; by left |].
    right. right. apply list_elem_of_fmap in Hp as (m & -> & Hin).
    apply list_elem_of_fmap. exists m. split; [reflexivity|].
    apply merge_months_shot; assumption.
  - rewrite !length_app, length_map, (merge_months_length month Hm).
    destruct has_tail; reflexivity.
Qed.

Lemma merge_order_captured_witness :
  (forall p, p ∈ snd (company_shipment_paths (py "/srv/temp") (py "east") true 12) ->
             p ∈ fst (company_shipment_paths (py "/srv/temp") (py "east") true 12)) /\
  length (snd (company_shipment_paths (py "/srv/temp") (py "east") true 12)) = 6%nat.
Proof.
  apply (merge_order_captured (py "/srv/temp") (py "east") true 12). lia.
Defined.

End ReportFacts.

(** * More facts about the extraction of the order code *)

Module ExtractMore.
Import Re ReFacts Extract ExtractFacts.

Lemma run_all p m : Forall (fun c => p c = true) m -> run p m = length m.
Proof.
  intros Hall. pose proof (Forall_run p m [] Hall) as H.
  rewrite app_nil_r in H. pose proof (run_le p m). lia.
Qed.

Lemma search_from_hit r pos s n :
  match_here r s = Some n -> search_from r pos s = Some (pos, pos + n).
Proof. intros H. destruct s; cbn [search_from]; rewrite H; reflexivity. Qed.

Lemma suffix_here_length t : suffix_here t = true -> 4 <= length t.
Proof.
  destruct t as [|h1 [|d1 [|h2 [|d2 t]]]]; simpl; try discriminate. lia.
Qed.

(** With an uppercase letter in [s], the plain pattern is found at the first
    one and takes the whole run behind it. *)
Lemma search_normal_first s :
  (exists c, c ∈ s /\ is_upper c = true) ->
  exists i c s',
    search pattern_normal s = Some (i, i + S (run is_order_char s')) /\
    drop i s = c :: s' /\ is_upper c = true /\
    forall x, x ∈ take i s -> is_upper x = false.
Proof.
  intros (c0 & Hin & Hc0).
  destruct (search pattern_normal s) as [[a b]|] eqn:E.
  - apply search_from_Some in E as (i & n & -> & -> & Hi & Hm & Hfirst).
    rewrite match_normal in Hm.
    destruct (drop i s) as [|c s'] eqn:Hd; [discriminate|].
    destruct (is_upper c) eqn:Hc; [|discriminate]. injection Hm as <-.
    exists i, c, s'. split_and!; [reflexivity | exact Hd | exact Hc |].
    intros x Hx. apply elem_of_take in Hx as (j & Hj & Hlt).
    specialize (Hfirst j Hlt). rewrite match_normal in Hfirst.
    rewrite (drop_S _ _ _ Hj) in Hfirst.
    destruct (is_upper x); [discriminate | reflexivity].
  - exfalso. apply list_elem_of_lookup_1 in Hin as (j & Hj).
    pose proof (search_from_None _ _ _ E j) as H.
    rewrite match_normal, (drop_S _ _ _ Hj), Hc0 in H.
    apply lookup_lt_Some in Hj. specialize (H ltac:(lia)). discriminate.
Qed.

(** Shape of the result. Whenever the raw order string has an uppercase
    letter, the extracted order code is an uppercase letter followed by
    uppercase letters, digits and hyphens only: it is never empty and never
    holds a blank, a lowercase letter or any other character. *)
Theorem extract_shape s :
  (exists c, c ∈ s /\ is_upper c = true) ->
  order_run (extract_order_number s).
Proof.
  intros Hup. unfold extract_order_number.
  destruct (search pattern_with_suffix s) as [[a b]|] eqn:E.
  - apply search_from_Some in E as (i & n & -> & -> & _ & Hm & _).
    unfold group0. simpl. replace (i + n - i) with n by lia.
    apply match_with_suffix_run in Hm as (_ & Hrun & _). exact Hrun.
  - destruct (search_normal_first s Hup) as (i & c & s' & -> & Hd & Hc & _).
    unfold group0. simpl fst. simpl snd. rewrite Hd.
    replace (i + S (run is_order_char s') - i) with (S (run is_order_char s'))
      by lia.
    simpl. exists c, (take (run is_order_char s') s').
    split_and!; [reflexivity | exact Hc |]. apply run_Forall. lia.
Qed.

Lemma extract_shape_witness :
  order_run (extract_order_number (py "ref. KX-20 b / SO7-3-1 x")).
Proof.
  apply (extract_shape (py "ref. KX-20 b / SO7-3-1 x")).
  exists (ch "K"). split; [|reflexivity].
  apply list_elem_of_In. vm_compute. tauto.
Defined.

(** Plain form anywhere in the string. When the raw order string has no
    [-d-d] but has an uppercase letter, the result starts at the first
    uppercase letter and runs on for as long as the characters are uppercase
    letters, digits or hyphens: the string is some text without any
    uppercase letter, then the result, then a rest; the result is an
    uppercase letter followed by characters of the class; and the rest is
    empty or starts with a character outside the class. *)
Theorem extract_plain_leftmost s :
  (exists c, c ∈ s /\ is_upper c = true) ->
  ~ contains_suffix s ->
  exists pre rest,
    s = pre ++ extract_order_number s ++ rest /\
    (forall x, x ∈ pre -> is_upper x = false) /\
    order_run (extract_order_number s) /\
    (forall x rest', rest = x :: rest' -> is_order_char x = false).
Proof.
  intros Hup Hno. unfold extract_order_number.
  rewrite (no_suffix_no_match _ Hno).
  destruct (search_normal_first s Hup) as (i & c & s' & -> & Hd & Hc & Hpre).
  unfold group0. simpl fst. simpl snd. rewrite Hd.
  replace (i + S (run is_order_char s') - i) with (S (run is_order_char s'))
    by lia.
  exists (take i s), (drop (run is_order_char s') s'). split_and!.
  - simpl. rewrite take_drop, <- Hd, take_drop. reflexivity.
  - exact Hpre.
  - simpl. exists c, (take (run is_order_char s') s').
    split_and!; [reflexivity | exact Hc |]. apply run_Forall. lia.
  - intros x rest' Hrest. exact (run_stop _ _ _ _ Hrest).
Qed.

Lemma extract_plain_leftmost_witness :
  exists pre rest,
    py "po: KX-20b (urgent)"
    = pre ++ extract_order_number (py "po: KX-20b (urgent)") ++ rest /\
    (forall x, x ∈ pre -> is_upper x = false) /\
    order_run (extract_order_number (py "po: KX-20b (urgent)")) /\
    (forall x rest', rest = x :: rest' -> is_order_char x = false).
Proof.
  apply (extract_plain_leftmost (py "po: KX-20b (urgent)")).
  - exists (ch "K"). split; [|reflexivity].
    apply list_elem_of_In. vm_compute. tauto.
  - discriminate.
Defined.

(** Fixed point. An order code that is already in canonical form (an
    uppercase letter followed by uppercase letters, digits and hyphens) and
    has no [-d-d] in it is returned as it is. *)
Theorem extract_fixed_point m :
  order_run m -> ~ contains_suffix m -> extract_order_number m = m.
Proof.
  intros (c & m' & -> & Hc & Hall) Hno. unfold extract_order_number.
  rewrite (no_suffix_no_match _ Hno). unfold search.
  rewrite (search_from_hit _ _ _ (S (run is_order_char m')))
    by (rewrite match_normal, Hc; reflexivity).
  unfold group0. simpl. rewrite (run_all _ _ Hall), firstn_all. reflexivity.
Qed.

Lemma extract_fixed_point_witness :
  extract_order_number (py "SO2407-018B") = py "SO2407-018B".
Proof.
  apply (extract_fixed_point (py "SO2407-018B")); [|discriminate].
  exists (ch "S"), (py "O2407-018B").
  split_and!; [reflexivity | reflexivity |]. repeat constructor.
Defined.

(** Round trip. A line suffix [-d-d] put behind a canonical order code is
    taken off again: for every such code [m] and digits [d1], [d2], the
    extraction of [m-d1-d2] is [m], also when [m] itself ends in [-d-d]. *)
Theorem extract_strips_appended_suffix m d1 d2 :
  order_run m -> is_digit d1 = true -> is_digit d2 = true ->
  extract_order_number (m ++ [ch "-"; d1; ch "-"; d2]) = m.
Proof.
  intros Hrun Hd1 Hd2.
  assert (digit_suffix [ch "-"; d1; ch "-"; d2]) as Hsuf.
  { unfold digit_suffix, suffix_here. rewrite Hd1, Hd2. reflexivity. }
  destruct (match_here pattern_with_suffix (m ++ [ch "-"; d1; ch "-"; d2]))
    as [n|] eqn:E.
  2:{ exfalso. exact (match_with_suffix_complete _ _ Hrun Hsuf E). }
  assert (n = length m) as ->.
  { pose proof (match_with_suffix_longest _ _ _ _ E eq_refl Hrun Hsuf).
    pose proof (match_with_suffix_run _ _ E) as (Hn & _ & Hs).
    apply suffix_here_length in Hs. rewrite length_drop, length_app in Hs.
    simpl in Hs. lia. }
  unfold extract_order_number, search.
  rewrite (search_from_hit _ _ _ _ E). unfold group0. simpl.
  rewrite Nat.sub_0_r. apply take_app_length.
Qed.

Lemma extract_strips_appended_suffix_witness :
  extract_order_number (py "A-1-2" ++ [ch "-"; ch "3"; ch "-"; ch "4"])
  = py "A-1-2".
Proof.
  apply (extract_strips_appended_suffix (py "A-1-2") (ch "3") (ch "4"));
    [|reflexivity | reflexivity].
  exists (ch "A"), (py "-1-2").
  split_and!; [reflexivity | reflexivity |]. repeat constructor.
Defined.

End ExtractMore.

(** * More facts about the reimport loop *)

Module SyncMore.
Import Extract Sync SyncFacts.

(** Splits [settled ... = false] into its three guards and executes the
    iteration past them. *)
Ltac past_guards Hs :=
  let Hc := fresh "Hcount" in
  let Hq := fresh "Hsame" in
  let Hm := fresh "Hmoved" in
  unfold settled in Hs;
  apply orb_false_iff in Hs as [Hs Hm];
  apply orb_false_iff in Hs as [Hc Hq];
  rewrite process_eq; cbv zeta; rewrite Hc, Hq, Hm.

Lemma filter_split_length (order : str) (l : list sn_row) :
  length (filter (fun r => sales_order r = order) l)
  + length (filter (fun r => sales_order r <> order) l) = length l.
Proof.
  induction l as [|r l IH]; [reflexivity|].
  rewrite !filter_cons.
  destruct (decide (sales_order r = order));
    destruct (decide (sales_order r <> order)); simpl; try lia; contradiction.
Qed.

Lemma count_guard_passed mes conn bc :
  negb (length (mes_codes mes bc) =? length (plus_codes conn bc)) = false ->
  length (mes_codes mes bc)
  = length (filter (fun r => sales_order r = order_of bc) (sn_library conn)).
Proof.
  intros H. apply negb_false_iff, Nat.eqb_eq in H. rewrite H.
  unfold plus_codes, query_plus_imported_barcodes. apply length_map.
Qed.

Lemma length_fresh_rows e mes bc :
  length (fresh_rows e mes bc) = length (mes_codes mes bc).
Proof. unfold fresh_rows, mes_codes. rewrite !length_map. reflexivity. Qed.

Lemma process_row_count e mes bc w :
  length (sn_library (plus (snd (process e mes bc w))))
  = length (sn_library (plus w)).
Proof.
  destruct (settled mes (plus w) bc) eqn:Hs.
  { destruct (process_settled e mes bc w Hs) as (v & m & ->). reflexivity. }
  past_guards Hs. destruct (fault_of e); try reflexivity.
  cbn [snd plus sn_library]. rewrite length_app, length_fresh_rows.
  rewrite (count_guard_passed _ _ _ Hcount). unfold other_rows.
  pose proof (filter_split_length (order_of bc) (sn_library (plus w))). lia.
Qed.

Lemma for_each_row_count mes bcs : forall envs w,
  length (sn_library (plus (snd (for_each envs mes bcs w))))
  = length (sn_library (plus w)).
Proof.
  induction bcs as [|bc rest IH]; intros envs w; [reflexivity|].
  rewrite for_each_cons.
  pose proof (process_row_count (envs O) mes bc w) as Hp.
  destruct (process (envs O) mes bc w) as [[v|ex] w1]; simpl in Hp.
  - rewrite IH. exact Hp.
  - exact Hp.
Qed.

(** Row count. Whatever the upstream data and whatever fails, a whole run
    leaves the serial-number library with as many rows as it had: a reimport
    only happens when both sides have the same number of codes, so it
    deletes as many rows as it inserts. *)
Theorem run_keeps_row_count envs mes w :
  length (sn_library (plus (snd (main envs mes w))))
  = length (sn_library (plus w)).
Proof.
  rewrite main_eq. cbv zeta.
  match goal with
  | |- context [for_each envs mes ?bcs ?w0] =>
      pose proof (for_each_row_count mes bcs envs w0) as H;
      destruct (for_each envs mes bcs w0) as [[a|ex] w1]
  end; exact H.
Qed.

(** Trace of a reimport. An iteration that ends in a commit has logged, after
    its three opening lines, exactly: the delete, its row count, the insert,
    its row count, the commit and the success line; both counts are the
    number of upstream codes, and the inserted rows carry the upstream codes
    in order. *)
Theorem reimport_trace e mes bc w w' :
  process e mes bc w = (Ok Reimported, w') ->
  exists rows,
    map sn_code rows = mes_codes mes bc /\
    journal w' =
    journal w ++ preamble mes bc w
      ++ [Sql_delete (order_of bc);
          Log INFO (Deleted (length (mes_codes mes bc)));
          Sql_insert rows;
          Log INFO (Inserted (length (mes_codes mes bc)));
          Sql_commit; Log INFO Reimport_ok].
Proof.
  destruct (settled mes (plus w) bc) eqn:Hs.
  { rewrite process_eq. cbv zeta. unfold settled in Hs.
    repeat match goal with
           | |- context [if ?b then _ else _] => destruct b
           end; try discriminate. }
  past_guards Hs. destruct (fault_of e); try discriminate.
  intros [= <-]. exists (fresh_rows e mes bc).
  split; [apply codes_of_fresh_rows|]. cbn [journal].
  assert (length (sn_library (plus w)) - length (other_rows (plus w) bc)
          = length (mes_codes mes bc)) as ->.
  { rewrite (count_guard_passed _ _ _ Hcount). unfold other_rows.
    pose proof (filter_split_length (order_of bc) (sn_library (plus w))). lia. }
  rewrite <- app_assoc, length_fresh_rows. reflexivity.
Qed.

Lemma reimport_trace_witness :
  exists rows,
    map sn_code rows = mes_codes Scenario.mes_two Scenario.po7 /\
    journal (snd (process Scenario.calm Scenario.mes_two Scenario.po7
                          (Scenario.fresh Scenario.plus_two))) =
    [] ++ preamble Scenario.mes_two Scenario.po7
                   (Scenario.fresh Scenario.plus_two)
      ++ [Sql_delete (order_of Scenario.po7);
          Log INFO (Deleted (length (mes_codes Scenario.mes_two Scenario.po7)));
          Sql_insert rows;
          Log INFO (Inserted (length (mes_codes Scenario.mes_two Scenario.po7)));
          Sql_commit; Log INFO Reimport_ok].
Proof.
  apply (reimport_trace Scenario.calm Scenario.mes_two Scenario.po7
           (Scenario.fresh Scenario.plus_two)).
  vm_compute. reflexivity.
Defined.

(** Nothing from nothing. An iteration that issues a write statement has at
    least one upstream code and at least one imported code: a batch without
    barcodes never makes the engine delete an order's serial numbers, and an
    order without imported rows never gets any inserted. *)
Theorem write_needs_both_sides e mes bc w :
  writes (journal (snd (process e mes bc w))) <> writes (journal w) ->
  mes_codes mes bc <> [] /\ plus_codes (plus w) bc <> [].
Proof.
  intros Hw.
  destruct (settled mes (plus w) bc) eqn:Hs.
  { exfalso. apply Hw.
    destruct (process_settled e mes bc w Hs) as (v & m & ->).
    cbn [snd journal]. apply writes_preamble. }
  unfold settled in Hs.
  apply orb_false_iff in Hs as [Hs _]. apply orb_false_iff in Hs as [Hc Hq].
  apply negb_false_iff, Nat.eqb_eq in Hc.
  split; intros Hnil; rewrite Hnil in Hc, Hq; simpl in Hc.
  - symmetry in Hc. apply length_zero_iff_nil in Hc. rewrite Hc in Hq.
    rewrite same_set_refl in Hq. discriminate.
  - apply length_zero_iff_nil in Hc. rewrite Hc in Hq.
    rewrite same_set_refl in Hq. discriminate.
Qed.

Lemma write_needs_both_sides_witness :
  mes_codes Scenario.mes_two Scenario.po8 <> [] /\
  plus_codes Scenario.plus_two Scenario.po8 <> [].
Proof.
  apply (write_needs_both_sides (Scenario.failing FailCommit) Scenario.mes_two
           Scenario.po8 (Scenario.fresh Scenario.plus_two)).
  vm_compute. discriminate.
Defined.

(** Failed write statements. When an iteration has passed its guards and the
    delete, the insert or the commit of its write transaction fails, the
    iteration raises the exception of that statement; the committed database
    is untouched (also when it is the commit that fails, after both
    statements ran), the transaction is closed, and the last log line is the
    reimport error with that exception. *)
Theorem write_failure_leaves_database e mes bc w :
  settled mes (plus w) bc = false ->
  fault_of e <> NoFault ->
  exists st w',
    process e mes bc w = (Raise (DatabaseError st), w') /\
    match fault_of e with
    | NoFault => False
    | FailDelete => st = DELETE
    | FailInsert _ => st = INSERT
    | FailCommit => st = COMMIT
    end /\
    plus w' = plus w /\ txn w' = None /\
    last (journal w') = Some (Log ERROR (Reimport_failed (DatabaseError st))).
Proof.
  intros Hs Hf. past_guards Hs.
  destruct (fault_of e); [contradiction | | |];
    eexists _, _;
    (split_and!; [reflexivity | reflexivity | reflexivity | reflexivity |]);
    cbn [journal]; rewrite last_app; reflexivity.
Qed.

Lemma write_failure_leaves_database_witness :
  exists st w',
    process (Scenario.failing FailCommit) Scenario.mes_two Scenario.po7
            (Scenario.fresh Scenario.plus_two)
    = (Raise (DatabaseError st), w') /\
    st = COMMIT /\
    plus w' = Scenario.plus_two /\ txn w' = None /\
    last (journal w') = Some (Log ERROR (Reimport_failed (DatabaseError st))).
Proof.
  apply (write_failure_leaves_database (Scenario.failing FailCommit)
           Scenario.mes_two Scenario.po7 (Scenario.fresh Scenario.plus_two)).
  - vm_compute. reflexivity.
  - discriminate.
Defined.

Lemma process_codes_choice e mes bc w order :
  query_plus_imported_barcodes (plus (snd (process e mes bc w))) order
  = query_plus_imported_barcodes (plus w) order \/
  (order_of bc = order /\
   query_plus_imported_barcodes (plus (snd (process e mes bc w))) order
   = mes_codes mes bc).
Proof.
  destruct (settled mes (plus w) bc) eqn:Hs.
  { destruct (process_settled e mes bc w Hs) as (v & m & ->). by left. }
  past_guards Hs. destruct (fault_of e); try (by left).
  cbn [snd plus]. destruct (decide (order = order_of bc)) as [->|Hne].
  - right. split; [reflexivity | apply imported_after_reimport].
  - left. apply imported_elsewhere. exact Hne.
Qed.

Lemma for_each_codes_choice mes bcs : forall envs w order,
  query_plus_imported_barcodes (plus (snd (for_each envs mes bcs w))) order
  = query_plus_imported_barcodes (plus w) order \/
  exists bc, bc ∈ bcs /\ order_of bc = order /\
             query_plus_imported_barcodes
               (plus (snd (for_each envs mes bcs w))) order
             = mes_codes mes bc.
Proof.
  induction bcs as [|bc rest IH]; intros envs w order; [by left|].
  rewrite for_each_cons.
  pose proof (process_codes_choice (envs O) mes bc w order) as Hp.
  destruct (process (envs O) mes bc w) as [[v|ex] w1]; cbn [snd] in Hp.
  - destruct (IH (fun i => envs (S i)) w1 order) as [Hrest | (bc' & Hin & Ho & Hc)].
    + rewrite Hrest. destruct Hp as [Hp | [Ho Hp]]; [by left | right].
      exists bc. split_and!; [apply elem_of_cons; by left | exact Ho | exact Hp].
    + right. exists bc'.
      split_and!; [apply elem_of_cons; by right | exact Ho | exact Hc].
  - cbn [snd]. destruct Hp as [Hp | [Ho Hp]]; [by left | right].
    exists bc. split_and!; [apply elem_of_cons; by left | exact Ho | exact Hp].
Qed.

(** All or nothing for a whole run. After a run, ended by an exception or
    not, the imported codes of any order code are either the ones from before
    the run or the complete code list of one batch of the run with that
    order code: no order is ever left with a part of a batch or with a mix
    of old and new codes. *)
Theorem run_all_or_nothing envs mes w order :
  query_plus_imported_barcodes (plus (snd (main envs mes w))) order
  = query_plus_imported_barcodes (plus w) order \/
  exists bc, bc ∈ recent_barcode_creations mes /\ order_of bc = order /\
             query_plus_imported_barcodes (plus (snd (main envs mes w))) order
             = mes_codes mes bc.
Proof.
  rewrite main_eq. cbv zeta.
  match goal with
  | |- context [for_each envs mes ?bcs ?w0] =>
      pose proof (for_each_codes_choice mes bcs envs w0 order) as H;
      destruct (for_each envs mes bcs w0) as [[a|ex] w1]
  end; exact H.
Qed.

Lemma for_each_movement mes bcs : forall envs w,
  stock (plus (snd (for_each envs mes bcs w))) = stock (plus w) /\
  shipped (plus (snd (for_each envs mes bcs w))) = shipped (plus w).
Proof.
  induction bcs as [|bc rest IH]; intros envs w; [split; reflexivity|].
  rewrite for_each_cons.
  pose proof (process_movement (envs O) mes bc w) as [Hst Hsh].
  destruct (process (envs O) mes bc w) as [[v|ex] w1]; cbn [snd] in *.
  - destruct (IH (fun i => envs (S i)) w1) as [Hst' Hsh'].
    split; congruence.
  - split; assumption.
Qed.

(** Movement tables. A whole run, whatever happens in it, leaves the stock
    table and the shipment table exactly as they were: the engine reads them
    and never writes them. *)
Theorem run_keeps_movement_tables envs mes w :
  stock (plus (snd (main envs mes w))) = stock (plus w) /\
  shipped (plus (snd (main envs mes w))) = shipped (plus w).
Proof.
  rewrite main_eq. cbv zeta.
  match goal with
  | |- context [for_each envs mes ?bcs ?w0] =>
      pose proof (for_each_movement mes bcs envs w0) as H;
      destruct (for_each envs mes bcs w0) as [[a|ex] w1]
  end; exact H.
Qed.

Lemma process_rows_elsewhere e mes bc w order :
  order <> order_of bc ->
  filter (fun r => sales_order r = order)
         (sn_library (plus (snd (process e mes bc w))))
  = filter (fun r => sales_order r = order) (sn_library (plus w)).
Proof.
  intros Hne.
  destruct (settled mes (plus w) bc) eqn:Hs.
  { destruct (process_settled e mes bc w Hs) as (v & m & ->). reflexivity. }
  past_guards Hs. destruct (fault_of e); try reflexivity.
  cbn [snd plus sn_library]. unfold other_rows.
  rewrite filter_app, filter_order_keep, filter_fresh_rows_other by exact Hne.
  apply app_nil_r.
Qed.

Lemma for_each_rows_elsewhere mes bcs : forall envs w order,
  order ∉ map order_of bcs ->
  filter (fun r => sales_order r = order)
         (sn_library (plus (snd (for_each envs mes bcs w))))
  = filter (fun r => sales_order r = order) (sn_library (plus w)).
Proof.
  induction bcs as [|bc rest IH]; intros envs w order Hnot; [reflexivity|].
  rewrite for_each_cons.
  assert (order <> order_of bc) as Hne.
  { intros ->. apply Hnot. simpl. apply elem_of_cons. by left. }
  assert (order ∉ map order_of rest) as Hrest.
  { intros Hin. apply Hnot. simpl. apply elem_of_cons. by right. }
  pose proof (process_rows_elsewhere (envs O) mes bc w order Hne) as Hp.
  destruct (process (envs O) mes bc w) as [[v|ex] w1]; cbn [snd] in *.
  - rewrite IH by exact Hrest. exact Hp.
  - exact Hp.
Qed.

(** Other orders. The library rows of a sales order that is the order code of
    no recent batch come out of a run unchanged, with all their columns and
    in their order: a reimport deletes and inserts rows of its own order code
    only. *)
Theorem run_keeps_other_orders envs mes w order :
  order ∉ map order_of (recent_barcode_creations mes) ->
  filter (fun r => sales_order r = order)
         (sn_library (plus (snd (main envs mes w))))
  = filter (fun r => sales_order r = order) (sn_library (plus w)).
Proof.
  intros Hnot. rewrite main_eq. cbv zeta.
  match goal with
  | |- context [for_each envs mes ?bcs ?w0] =>
      pose proof (for_each_rows_elsewhere mes bcs envs w0 order Hnot) as H;
      destruct (for_each envs mes bcs w0) as [[a|ex] w1]
  end; exact H.
Qed.

Lemma run_keeps_other_orders_witness :
  filter (fun r => sales_order r = py "PO-9")
         (sn_library (plus (snd (main (fun _ => Scenario.calm) Scenario.mes_two
                                      (Scenario.fresh Scenario.plus_two)))))
  = filter (fun r => sales_order r = py "PO-9") (sn_library Scenario.plus_two).
Proof.
  apply (run_keeps_other_orders (fun _ => Scenario.calm) Scenario.mes_two
           (Scenario.fresh Scenario.plus_two) (py "PO-9")).
  apply (bool_decide_unpack _). vm_compute. exact I.
Defined.

(** Provenance. After a successful reimport every library row of the order
    code carries the batch's item code, the robot marker as import source and
    as entering user, and the time read by the insert; its serial code is one
    of the upstream codes. *)
Theorem reimport_stamps e mes bc w w' :
  process e mes bc w = (Ok Reimported, w') ->
  forall r, r ∈ sn_library (plus w') -> sales_order r = order_of bc ->
            item_code r = inv_code bc /\ import_source r = robot /\
            entered_by r = robot /\ entered_at r = clock e /\
            sn_code r ∈ mes_codes mes bc.
Proof.
  destruct (settled mes (plus w) bc) eqn:Hs.
  { rewrite process_eq. cbv zeta. unfold settled in Hs.
    repeat match goal with
           | |- context [if ?b then _ else _] => destruct b
           end; try discriminate. }
  past_guards Hs. destruct (fault_of e); try discriminate.
  intros [= <-] r Hr Ho. cbn [plus sn_library] in Hr.
  apply elem_of_app in Hr as [Hr|Hr].
  - unfold other_rows in Hr. apply list_elem_of_filter in Hr as [Hne _].
    contradiction.
  - unfold fresh_rows in Hr. apply list_elem_of_fmap in Hr as (b & -> & Hb).
    cbn. split_and!; try reflexivity.
    unfold mes_codes. apply list_elem_of_fmap. exists b. split; [reflexivity | exact Hb].
Qed.

Lemma reimport_stamps_witness :
  item_code (Scenario.mk_sn "PO-7" "ITEM-1" "A2") = inv_code Scenario.po7 /\
  robot = robot /\ robot = robot /\
  clock Scenario.calm = clock Scenario.calm /\
  py "A2" ∈ mes_codes Scenario.mes_two Scenario.po7.
Proof.
  apply (reimport_stamps Scenario.calm Scenario.mes_two Scenario.po7
           (Scenario.fresh Scenario.plus_two)
           (snd (process Scenario.calm Scenario.mes_two Scenario.po7
                         (Scenario.fresh Scenario.plus_two)))
           (ltac:(vm_compute; reflexivity))
           {| sales_order := py "PO-7"; item_code := py "ITEM-1";
              sn_code := py "A2"; import_source := robot; entered_by := robot;
              entered_at := clock Scenario.calm |}).
  - apply list_elem_of_In. vm_compute. auto.
  - reflexivity.
Defined.

(** Deleted barcodes stay out. After a successful reimport every imported
    code of the order code is the code of a barcode row of that batch whose
    delete flag is zero: a logically deleted barcode, or a barcode of another
    batch, never reaches PLUS. *)
Theorem reimport_skips_deleted e mes bc w w' :
  process e mes bc w = (Ok Reimported, w') ->
  forall c, c ∈ plus_codes (plus w') bc ->
            exists row, row ∈ jgmes_barcode_data mes /\
                        bd_bc_id row = bc_id bc /\ delete_flag row = 0%Z /\
                        bd_code row = c.
Proof.
  destruct (settled mes (plus w) bc) eqn:Hs.
  { rewrite process_eq. cbv zeta. unfold settled in Hs.
    repeat match goal with
           | |- context [if ?b then _ else _] => destruct b
           end; try discriminate. }
  past_guards Hs. destruct (fault_of e); try discriminate.
  intros [= <-] c Hc. unfold plus_codes in Hc. cbn [plus] in Hc.
  rewrite imported_after_reimport in Hc.
  unfold mes_codes, query_mes_barcode_creation_barcodes in Hc.
  apply list_elem_of_fmap in Hc as (b & -> & Hb).
  apply list_elem_of_fmap in Hb as (row & -> & Hrow).
  apply list_elem_of_filter in Hrow as [[Hbc Hdel] Hin].
  exists row. split_and!; [exact Hin | exact Hbc | exact Hdel | reflexivity].
Qed.

Lemma reimport_skips_deleted_witness :
  exists row, row ∈ jgmes_barcode_data Scenario.mes_two /\
              bd_bc_id row = bc_id Scenario.po7 /\ delete_flag row = 0%Z /\
              bd_code row = py "A2".
Proof.
  apply (reimport_skips_deleted Scenario.calm Scenario.mes_two Scenario.po7
           (Scenario.fresh Scenario.plus_two)
           (snd (process Scenario.calm Scenario.mes_two Scenario.po7
                         (Scenario.fresh Scenario.plus_two)))
           (ltac:(vm_compute; reflexivity)) (py "A2")).
  apply list_elem_of_In. vm_compute. auto.
Defined.

Lemma process_closes e mes bc w :
  txn w = None -> txn (snd (process e mes bc w)) = None.
Proof.
  intros Ht.
  destruct (settled mes (plus w) bc) eqn:Hs.
  { destruct (process_settled e mes bc w Hs) as (v & m & ->). exact Ht. }
  past_guards Hs. destruct (fault_of e); reflexivity.
Qed.

Lemma for_each_closes mes bcs : forall envs w,
  txn w = None -> txn (snd (for_each envs mes bcs w)) = None.
Proof.
  induction bcs as [|bc rest IH]; intros envs w Ht; [exact Ht|].
  rewrite for_each_cons.
  pose proof (process_closes (envs O) mes bc w Ht) as Hp.
  destruct (process (envs O) mes bc w) as [[v|ex] w1]; cbn [snd] in *.
  - apply IH. exact Hp.
  - exact Hp.
Qed.

(** No connection left open. A run that starts without an open write
    transaction ends without one, whether it ends normally or by an
    exception at a delete, an insert or a commit: every transaction the loop
    opens is closed in the same iteration. *)
Theorem run_closes_transactions envs mes w :
  txn w = None -> txn (snd (main envs mes w)) = None.
Proof.
  intros Ht. rewrite main_eq. cbv zeta.
  match goal with
  | |- context [for_each envs mes ?bcs ?w0] =>
      pose proof (for_each_closes mes bcs envs w0 Ht) as H;
      destruct (for_each envs mes bcs w0) as [[a|ex] w1]
  end; exact H.
Qed.

Lemma run_closes_transactions_witness :
  txn (snd (main Scenario.first_delete_fails Scenario.mes_two
                 (Scenario.fresh Scenario.plus_two))) = None.
Proof.
  apply (run_closes_transactions Scenario.first_delete_fails Scenario.mes_two
           (Scenario.fresh Scenario.plus_two)).
  reflexivity.
Defined.

End SyncMore.
